(** * CrackLeaf: a shallow embedding of [src/crackleaf-rs/src/main.rs]

    The session state of [CrackLeafApp], its animation controller, the
    unlock worker [run_unlock] and the qpdf probes are translated into
    executable Rocq functions.  Every interaction with the outside world
    (the qpdf child process, the file system, the clock, the GUI input of a
    frame) is an explicit argument, so that a UI frame becomes a pure
    function [update] from a state to a state. *)

From Stdlib Require Import String Ascii List Bool Arith Lia.
Import ListNotations.
Open Scope string_scope.

(* ================================================================== *)
(** ** Strings: the few [str] methods the program uses                  *)

(** [char::is_whitespace] restricted to the ASCII range. *)
Definition is_whitespace (c : ascii) : bool :=
  let n := nat_of_ascii c in
  Nat.eqb n 32 || (Nat.leb 9 n && Nat.leb n 13).

(** [char::is_ascii_digit]. *)
Definition is_ascii_digit (c : ascii) : bool :=
  let n := nat_of_ascii c in Nat.leb 48 n && Nat.leb n 57.

(** [char::to_ascii_lowercase]. *)
Definition ascii_lower (c : ascii) : ascii :=
  let n := nat_of_ascii c in
  if Nat.leb 65 n && Nat.leb n 90 then ascii_of_nat (n + 32) else c.

(** [str::to_lowercase], on the ASCII letters (the only ones the patterns
    searched for below contain). *)
Fixpoint to_lowercase (s : string) : string :=
  match s with
  | EmptyString => EmptyString
  | String c s' => String (ascii_lower c) (to_lowercase s')
  end.

(** [str::eq_ignore_ascii_case]. *)
Definition eq_ignore_ascii_case (a b : string) : bool :=
  String.eqb (to_lowercase a) (to_lowercase b).

(** [str::contains] for a string pattern. *)
Fixpoint contains (s pat : string) : bool :=
  String.prefix pat s ||
  match s with
  | EmptyString => false
  | String _ s' => contains s' pat
  end.

(** [str::is_empty]. *)
Definition is_empty (s : string) : bool :=
  match s with EmptyString => true | _ => false end.

(** [str::trim_start]. *)
Fixpoint trim_start (s : string) : string :=
  match s with
  | EmptyString => EmptyString
  | String c s' => if is_whitespace c then trim_start s' else s
  end.

Fixpoint rev_string (s : string) : string :=
  match s with
  | EmptyString => EmptyString
  | String c s' => rev_string s' ++ String c EmptyString
  end.

(** [str::trim]: whitespace removed at both ends. *)
Definition trim (s : string) : string :=
  rev_string (trim_start (rev_string (trim_start s))).

(** [str::split_whitespace]: the maximal non-empty runs of non-whitespace
    characters, in order.  [cur] is the token being read. *)
Fixpoint split_ws_aux (s cur : string) : list string :=
  match s with
  | EmptyString => if is_empty cur then [] else [cur]
  | String c s' =>
      if is_whitespace c
      then app (if is_empty cur then [] else [cur]) (split_ws_aux s' EmptyString)
      else split_ws_aux s' (cur ++ String c EmptyString)
  end.

Definition split_whitespace (s : string) : list string := split_ws_aux s EmptyString.

(** Splitting on one character, keeping empty pieces (as [str::split]). *)
Fixpoint split_on_aux (sep : ascii) (s cur : string) : list string :=
  match s with
  | EmptyString => [cur]
  | String c s' =>
      if Ascii.eqb c sep then cur :: split_on_aux sep s' EmptyString
      else split_on_aux sep s' (cur ++ String c EmptyString)
  end.

Definition split_on (sep : ascii) (s : string) : list string := split_on_aux sep s EmptyString.

(** The decimal rendering of a [usize] by [format!]. *)
Fixpoint string_of_uint (d : Decimal.uint) : string :=
  match d with
  | Decimal.Nil => EmptyString
  | Decimal.D0 d => String "0" (string_of_uint d)
  | Decimal.D1 d => String "1" (string_of_uint d)
  | Decimal.D2 d => String "2" (string_of_uint d)
  | Decimal.D3 d => String "3" (string_of_uint d)
  | Decimal.D4 d => String "4" (string_of_uint d)
  | Decimal.D5 d => String "5" (string_of_uint d)
  | Decimal.D6 d => String "6" (string_of_uint d)
  | Decimal.D7 d => String "7" (string_of_uint d)
  | Decimal.D8 d => String "8" (string_of_uint d)
  | Decimal.D9 d => String "9" (string_of_uint d)
  end.

Definition usize_to_string (n : nat) : string := string_of_uint (Nat.to_uint n).

(* ================================================================== *)
(** ** Paths: [PathBuf] as the string it was built from                 *)

Definition PathBuf := string.

(** [Path::components] on a Unix path: a root marker, a leading [.]
    kept as the current-directory component, then the non-empty pieces
    other than [.]. *)
Definition components (p : PathBuf) : list string :=
  let pieces := split_on "/" p in
  let keep := filter (fun c => negb (is_empty c || String.eqb c ".")) pieces in
  match p with
  | String "/" _ => "/" :: keep
  | _ => match pieces with
         | "." :: _ => "." :: keep
         | _ => keep
         end
  end.

Fixpoint components_eqb (a b : list string) : bool :=
  match a, b with
  | [], [] => true
  | x :: a', y :: b' => String.eqb x y && components_eqb a' b'
  | _, _ => false
  end.

(** [PathBuf == PathBuf] compares components. *)
Definition path_eqb (p q : PathBuf) : bool :=
  components_eqb (components p) (components q).

(** [Path::file_name]: the last component when it is a normal one. *)
Definition file_name (p : PathBuf) : option string :=
  match last (map Some (components p)) None with
  | Some c =>
      if String.eqb c "/" || String.eqb c "." || String.eqb c ".." then None else Some c
  | None => None
  end.

(** [rsplit_file_at_dot]: a file name split at its last dot; a name whose
    only dot is its first character has no extension. *)
Definition rsplit_file_at_dot (name : string) : string * option string :=
  match rev (split_on "." name) with
  | [] | [_] => (name, None)
  | after :: before_rev =>
      let before := String.concat "." (rev before_rev) in
      if is_empty before then (name, None) else (before, Some after)
  end.

(** [Path::extension]. *)
Definition extension (p : PathBuf) : option string :=
  match file_name p with
  | Some n => snd (rsplit_file_at_dot n)
  | None => None
  end.

(** [Path::file_stem]. *)
Definition file_stem (p : PathBuf) : option string :=
  match file_name p with
  | Some n => Some (fst (rsplit_file_at_dot n))
  | None => None
  end.

(** [Path::parent]: the path without its last component, [None] for a
    path made of a root only or of nothing. *)
Definition parent (p : PathBuf) : option PathBuf :=
  match rev (components p) with
  | [] => None
  | [c] => if String.eqb c "/" then None else Some EmptyString
  | _ :: rest_rev =>
      match rev rest_rev with
      | "/" :: rest => Some ("/" ++ String.concat "/" rest)
      | rest => Some (String.concat "/" rest)
      end
  end.

(** [Path::join]: an absolute argument replaces the base, otherwise a
    separator is inserted unless the base is empty or already ends in one. *)
Definition join (dir name : PathBuf) : PathBuf :=
  match name with
  | String "/" _ => name
  | _ =>
      if is_empty dir then name
      else match rev_string dir with
           | String "/" _ => dir ++ name
           | _ => dir ++ "/" ++ name
           end
  end.

(** [is_pdf]. *)
Definition is_pdf (p : PathBuf) : bool :=
  match extension p with
  | Some ext => eq_ignore_ascii_case ext "pdf"
  | None => false
  end.

(* ================================================================== *)
(** ** Child processes                                                 *)

(** [std::io::Result<T>]: the error carries the OS error text. *)
Inductive io_result (A : Type) : Type :=
| IoOk (a : A)
| IoErr (err : string).
Arguments IoOk {A} a.
Arguments IoErr {A} err.

(** [std::process::Output]. *)
Record Output := mkOutput {
  status_success : bool;
  stdout : string;
  stderr : string
}.

(** [detect_encrypted], given the result of [qpdf --show-encryption path]. *)
Definition detect_encrypted (output : io_result Output) : option bool :=
  match output with
  | IoErr _ => None
  | IoOk o =>
      if negb (status_success o) then None
      else
        let out := to_lowercase (stdout o) in
        if contains out "file is encrypted"
           || contains out "encryption: yes"
           || contains out "user password"
           || contains out "owner password"
        then Some true
        else if contains out "file is not encrypted" || contains out "not encrypted"
        then Some false
        else None
  end.

(** [QpdfStatus]. *)
Record QpdfStatus := mkQpdfStatus {
  qs_ok : bool;
  qs_error : option string;
  qs_version : option string;
  qs_warning : option string
}.

(** [parse_qpdf_version]: the first whitespace-separated token starting
    with an ASCII digit.  The [?] on [chars().next()] never fires, since
    [split_whitespace] yields non-empty tokens; it is kept as written. *)
Fixpoint parse_qpdf_version_tokens (tokens : list string) : option string :=
  match tokens with
  | [] => None
  | token :: rest =>
      match token with
      | EmptyString => None
      | String c _ =>
          if is_ascii_digit c then Some (trim token) else parse_qpdf_version_tokens rest
      end
  end.

Definition parse_qpdf_version (output : string) : option string :=
  parse_qpdf_version_tokens (split_whitespace output).

(** [check_qpdf_ready], given the result of [qpdf --version]. *)
Definition check_qpdf_ready (output : io_result Output) : QpdfStatus :=
  match output with
  | IoOk o =>
      if status_success o then
        let version := parse_qpdf_version (stdout o) in
        let warning :=
          match version with
          | None => Some "已检测到 qpdf，但版本无法识别"
          | Some _ => None
          end in
        mkQpdfStatus true None version warning
      else
        let err := trim (stderr o) in
        let msg :=
          if is_empty err then "qpdf 运行失败（依赖缺失或版本不匹配）"
          else "qpdf 运行失败：" ++ err in
        mkQpdfStatus false (Some msg) None None
  | IoErr err =>
      mkQpdfStatus false (Some ("qpdf 不可用（请把 qpdf 放在程序同目录）：" ++ err)) None None
  end.

(* ================================================================== *)
(** ** The unlock worker                                               *)

(** The file system as the set of existing paths ([Path::exists]). *)
Definition FileSystem := PathBuf -> bool.

(** [unique_output_path]: the [for idx in 1..=9999] loop, [fuel] being the
    number of indices left to try. *)
Fixpoint unique_output_loop (fs : FileSystem) (output_dir base : string)
    (idx fuel : nat) : PathBuf :=
  match fuel with
  | O => join output_dir (base ++ "_overflow.pdf")
  | S fuel' =>
      let candidate := join output_dir (base ++ "_" ++ usize_to_string idx ++ ".pdf") in
      if negb (fs candidate) then candidate
      else unique_output_loop fs output_dir base (S idx) fuel'
  end.

Definition unique_output_path (fs : FileSystem) (output_dir file_stem : string) : PathBuf :=
  let base := file_stem ++ "_unlocked" in
  let candidate := join output_dir (base ++ ".pdf") in
  if negb (fs candidate) then candidate
  else unique_output_loop fs output_dir base 1 9999.

(** What the program reads from its surroundings. *)
Record World := mkWorld {
  (** [qpdf --show-encryption path] *)
  show_encryption : PathBuf -> io_result Output;
  (** [dirs::download_dir()] and [dirs::home_dir()] *)
  download_dir : option PathBuf;
  home_dir : option PathBuf;
  (** the file system when the worker starts *)
  fs_initial : FileSystem;
  (** [qpdf --password= --decrypt input output]: the spawn error, or whether
      the exit status is success together with whether the run left a file
      at [output] *)
  decrypt : PathBuf -> PathBuf -> io_result (bool * bool)
}.

(** [resolve_download_dir] (the [create_dir_all] calls have no effect on
    the result). *)
Definition resolve_download_dir (w : World) : option PathBuf :=
  match download_dir w with
  | Some dir => Some dir
  | None =>
      match home_dir w with
      | Some home => Some (join home "Downloads")
      | None => None
      end
  end.

(** The [output_dir] of [unlock_pdf]. *)
Definition unlock_output_dir (w : World) (path : PathBuf) : PathBuf :=
  match resolve_download_dir w with
  | Some dir => dir
  | None => match parent path with Some p => p | None => "." end
  end.

(** The [file_stem] of [unlock_pdf]. *)
Definition unlock_file_stem (path : PathBuf) : string :=
  match file_stem path with Some s => s | None => "output" end.

(** [unlock_pdf]: the [Result<Option<PathBuf>>] it returns, and the file
    system after the qpdf run. *)
Definition unlock_pdf (w : World) (fs : FileSystem) (path : PathBuf)
    : io_result (option PathBuf) * FileSystem :=
  let output_dir := unlock_output_dir w path in
  let stem := unlock_file_stem path in
  let output_path := unique_output_path fs output_dir stem in
  match decrypt w path output_path with
  | IoErr err =>
      (IoErr ("qpdf 执行失败（请把 qpdf 放在程序同目录或加入 PATH）: " ++ err), fs)
  | IoOk (success, wrote) =>
      let fs' := fun q => fs q || (wrote && path_eqb q output_path) in
      if negb success then (IoOk None, fs')
      else if fs' output_path then (IoOk (Some output_path), fs')
      else (IoOk None, fs')
  end.

(** [FileEntry]. *)
Record FileEntry := mkFileEntry {
  path : PathBuf;
  icon : string;
  status : string;
  unlock_result : option bool;
  output_path : option PathBuf
}.

(** [UnlockMessage]. *)
Inductive UnlockMessage :=
| FileResult (index : nat) (success : bool) (output_path : option PathBuf)
| Info (msg : string)
| Done.

(** The messages [run_unlock] sends for one entry. *)
Definition file_messages (index : nat) (r : io_result (option PathBuf)) : list UnlockMessage :=
  match r with
  | IoOk output_path =>
      let success := match output_path with Some _ => true | None => false end in
      [FileResult index success output_path]
  | IoErr err =>
      [FileResult index false None; Info ("解锁失败: " ++ err)]
  end.

(** [run_unlock]: every message the worker sends, in order, for the
    entries from position [index] on. *)
Fixpoint run_unlock_from (w : World) (fs : FileSystem) (index : nat)
    (files : list FileEntry) : list UnlockMessage :=
  match files with
  | [] => [Done]
  | entry :: rest =>
      let (r, fs') := unlock_pdf w fs (path entry) in
      app (file_messages index r) (run_unlock_from w fs' (S index) rest)
  end.

Definition run_unlock (w : World) (files : list FileEntry) : list UnlockMessage :=
  run_unlock_from w (fs_initial w) 0 files.

(* ================================================================== *)
(** ** The session state                                              *)

Inductive AnimationMode := Logo | HappyLoop | Peck | Success.

Definition mode_eqb (a b : AnimationMode) : bool :=
  match a, b with
  | Logo, Logo | HappyLoop, HappyLoop | Peck, Peck | Success, Success => true
  | _, _ => false
  end.

Record AnimationState := mkAnimationState {
  mode : AnimationMode;
  frame_index : nat;
  loops_left : nat
}.

(** [CrackLeafApp].  Textures are represented by the number of frames of
    each set; the clock fields ([last_frame_time], [frame_interval]) by the
    [tick_due] input of a frame; the window height, which only feeds
    [send_viewport_cmd], is left out.  The receiver [unlock_rx] holds the
    messages of the running worker that the UI has not received yet. *)
Record CrackLeafApp := mkApp {
  frames : list (string * nat);
  file_entries : list FileEntry;
  animation : AnimationState;
  unlock_in_progress : bool;
  unlock_ready_for_success : bool;
  unlock_work_done : bool;
  result_text : string;
  unlock_rx : option (list UnlockMessage);
  success_reverse : bool;
  qpdf_ok : bool;
  qpdf_error : option string;
  qpdf_version : option string;
  qpdf_warning : option string;
  had_unlock : bool;
  qpdf_prompted : bool
}.

(** Field assignments [self.f = v]. *)
Definition set_file_entries v s := mkApp (frames s) v (animation s) (unlock_in_progress s) (unlock_ready_for_success s) (unlock_work_done s) (result_text s) (unlock_rx s) (success_reverse s) (qpdf_ok s) (qpdf_error s) (qpdf_version s) (qpdf_warning s) (had_unlock s) (qpdf_prompted s).
Definition set_animation v s := mkApp (frames s) (file_entries s) v (unlock_in_progress s) (unlock_ready_for_success s) (unlock_work_done s) (result_text s) (unlock_rx s) (success_reverse s) (qpdf_ok s) (qpdf_error s) (qpdf_version s) (qpdf_warning s) (had_unlock s) (qpdf_prompted s).
Definition set_unlock_in_progress v s := mkApp (frames s) (file_entries s) (animation s) v (unlock_ready_for_success s) (unlock_work_done s) (result_text s) (unlock_rx s) (success_reverse s) (qpdf_ok s) (qpdf_error s) (qpdf_version s) (qpdf_warning s) (had_unlock s) (qpdf_prompted s).
Definition set_ready_for_success v s := mkApp (frames s) (file_entries s) (animation s) (unlock_in_progress s) v (unlock_work_done s) (result_text s) (unlock_rx s) (success_reverse s) (qpdf_ok s) (qpdf_error s) (qpdf_version s) (qpdf_warning s) (had_unlock s) (qpdf_prompted s).
Definition set_work_done v s := mkApp (frames s) (file_entries s) (animation s) (unlock_in_progress s) (unlock_ready_for_success s) v (result_text s) (unlock_rx s) (success_reverse s) (qpdf_ok s) (qpdf_error s) (qpdf_version s) (qpdf_warning s) (had_unlock s) (qpdf_prompted s).
Definition set_result_text v s := mkApp (frames s) (file_entries s) (animation s) (unlock_in_progress s) (unlock_ready_for_success s) (unlock_work_done s) v (unlock_rx s) (success_reverse s) (qpdf_ok s) (qpdf_error s) (qpdf_version s) (qpdf_warning s) (had_unlock s) (qpdf_prompted s).
Definition set_unlock_rx v s := mkApp (frames s) (file_entries s) (animation s) (unlock_in_progress s) (unlock_ready_for_success s) (unlock_work_done s) (result_text s) v (success_reverse s) (qpdf_ok s) (qpdf_error s) (qpdf_version s) (qpdf_warning s) (had_unlock s) (qpdf_prompted s).
Definition set_success_reverse v s := mkApp (frames s) (file_entries s) (animation s) (unlock_in_progress s) (unlock_ready_for_success s) (unlock_work_done s) (result_text s) (unlock_rx s) v (qpdf_ok s) (qpdf_error s) (qpdf_version s) (qpdf_warning s) (had_unlock s) (qpdf_prompted s).
Definition set_had_unlock v s := mkApp (frames s) (file_entries s) (animation s) (unlock_in_progress s) (unlock_ready_for_success s) (unlock_work_done s) (result_text s) (unlock_rx s) (success_reverse s) (qpdf_ok s) (qpdf_error s) (qpdf_version s) (qpdf_warning s) v (qpdf_prompted s).
Definition set_qpdf_prompted v s := mkApp (frames s) (file_entries s) (animation s) (unlock_in_progress s) (unlock_ready_for_success s) (unlock_work_done s) (result_text s) (unlock_rx s) (success_reverse s) (qpdf_ok s) (qpdf_error s) (qpdf_version s) (qpdf_warning s) (had_unlock s) v.

(** [load_frames]: every set gets one texture (or placeholder) per name. *)
Definition load_frames : list (string * nat) :=
  [("logo", 1); ("happy_loop", 7); ("peck", 2); ("success", 5); ("success_reverse", 5)].

(** [CrackLeafApp::new], given the result of the startup probe. *)
Definition new (qpdf_status : QpdfStatus) : CrackLeafApp :=
  mkApp load_frames [] (mkAnimationState Logo 0 0) false false false "" None false
    (qs_ok qpdf_status) (qs_error qpdf_status) (qs_version qpdf_status)
    (qs_warning qpdf_status) false false.

(** [set_mode]. *)
Definition set_mode (m : AnimationMode) (s : CrackLeafApp) : CrackLeafApp :=
  if mode_eqb (mode (animation s)) m then s
  else set_animation (mkAnimationState m 0 0) s.

Definition start_happy_loop (s : CrackLeafApp) : CrackLeafApp := set_mode HappyLoop s.

Definition start_peck (s : CrackLeafApp) : CrackLeafApp :=
  set_animation (mkAnimationState Peck 0 2) s.

Definition start_success (reverse : bool) (s : CrackLeafApp) : CrackLeafApp :=
  set_animation (mkAnimationState Success 0 1) (set_success_reverse reverse s).

(** [self.frames.get(key).map(|v| v.len()).unwrap_or(1)]. *)
Definition frame_count_of (frames : list (string * nat)) (key : string) : nat :=
  match find (fun kv => String.eqb (fst kv) key) frames with
  | Some (_, n) => n
  | None => 1
  end.

(** [success_count]: entries with [unlock_result == Some(true)]. *)
Definition success_count (entries : list FileEntry) : nat :=
  length (filter (fun f => match unlock_result f with Some true => true | _ => false end) entries).

(** [maybe_start_success_animation]. *)
Definition maybe_start_success_animation (s : CrackLeafApp) : CrackLeafApp :=
  if negb (unlock_ready_for_success s && unlock_work_done s) then s
  else
    let success_count := success_count (file_entries s) in
    let total_count := length (file_entries s) in
    let is_failure := Nat.ltb 0 total_count && Nat.eqb success_count 0 in
    let s :=
      if Nat.eqb success_count total_count && Nat.ltb 0 total_count
      then set_result_text "解锁成功" s
      else if Nat.ltb 0 success_count
      then set_result_text ("部分成功: " ++ usize_to_string success_count ++ "/"
                            ++ usize_to_string total_count) s
      else set_result_text "解锁失败" s in
    start_success is_failure s.

(** [tick_animation]; [due] is [last_frame_time.elapsed() >= frame_interval]. *)
Definition tick_animation (due : bool) (s : CrackLeafApp) : CrackLeafApp :=
  let a := animation s in
  match mode a with
  | Logo => s
  | m =>
      if negb due then s
      else
        let frame_count :=
          match m with
          | Logo => 1
          | HappyLoop => frame_count_of (frames s) "happy_loop"
          | Peck => frame_count_of (frames s) "peck"
          | Success =>
              if success_reverse s then frame_count_of (frames s) "success_reverse"
              else frame_count_of (frames s) "success"
          end in
        if Nat.eqb frame_count 0 then s
        else
          let fi := Nat.modulo (S (frame_index a)) frame_count in
          let s := set_animation (mkAnimationState m fi (loops_left a)) s in
          match m with
          | Peck =>
              if Nat.eqb fi 0 then
                let ll := if Nat.ltb 0 (loops_left a) then loops_left a - 1 else loops_left a in
                let s := set_animation (mkAnimationState m fi ll) s in
                if Nat.eqb ll 0 then
                  maybe_start_success_animation
                    (set_mode Logo (set_ready_for_success true s))
                else s
              else s
          | Success =>
              if Nat.eqb fi 0 then
                let ll := loops_left a - 1 in
                let s := set_animation (mkAnimationState m fi ll) s in
                if Nat.eqb ll 0 then
                  let s := set_unlock_in_progress false s in
                  match file_entries s with
                  | [] => set_mode Logo s
                  | _ => start_happy_loop s
                  end
                else s
              else s
          | _ => s
          end
  end.

(* ================================================================== *)
(** ** Session operations                                             *)

(** The entry [add_files] pushes for an accepted path. *)
Definition new_entry (w : World) (p : PathBuf) : FileEntry :=
  let '(icon, status) :=
    match detect_encrypted (show_encryption w p) with
    | Some true => ("🔒", "加密受限")
    | Some false => ("🔓", "未受限")
    | None => ("🔒", "未知")
    end in
  mkFileEntry p icon status None None.

(** The [for path in paths] loop of [add_files]: the entries and [added]. *)
Fixpoint add_paths (w : World) (paths : list PathBuf) (entries : list FileEntry)
    (added : bool) : list FileEntry * bool :=
  match paths with
  | [] => (entries, added)
  | p :: rest =>
      if negb (is_pdf p) then add_paths w rest entries added
      else if existsb (fun f => path_eqb (path f) p) entries
      then add_paths w rest entries added
      else add_paths w rest (app entries [new_entry w p]) true
  end.

(** [add_files]. *)
Definition add_files (w : World) (paths : list PathBuf) (s : CrackLeafApp) : CrackLeafApp :=
  let s :=
    if had_unlock s
    then set_had_unlock false (set_result_text "" (set_file_entries [] s))
    else s in
  let '(entries, added) := add_paths w paths (file_entries s) false in
  let s := set_file_entries entries s in
  if added then set_result_text "" s else s.

(** [start_unlock]: the spawned thread is represented by the messages it
    will send, computed from the snapshot [files]. *)
Definition start_unlock (w : World) (s : CrackLeafApp) : CrackLeafApp :=
  if unlock_in_progress s || (match file_entries s with [] => true | _ => false end)
  then s
  else
    let s := set_unlock_in_progress true s in
    let s := set_ready_for_success false s in
    let s := set_work_done false s in
    let s := set_result_text "处理中..." s in
    let s := start_peck s in
    let files := file_entries s in
    set_unlock_rx (Some (run_unlock w files)) s.

(** [Vec::get_mut(index)] followed by an update: nothing happens out of
    range. *)
Fixpoint update_nth {A : Type} (f : A -> A) (index : nat) (l : list A) : list A :=
  match l, index with
  | [], _ => []
  | x :: l', O => f x :: l'
  | x :: l', S i => x :: update_nth f i l'
  end.

(** The body of the [UnlockMessage::FileResult] arm on the addressed entry. *)
Definition apply_file_result (w : World) (success : bool) (op : option PathBuf)
    (entry : FileEntry) : FileEntry :=
  let out := if success then op else output_path entry in
  if success then
    let icon :=
      match out with
      | Some p =>
          match detect_encrypted (show_encryption w p) with
          | Some is_encrypted => if is_encrypted then "🔒" else "🔓"
          | None => "🔓"
          end
      | None => "🔓"
      end in
    mkFileEntry (path entry) icon "解锁成功" (Some success) out
  else mkFileEntry (path entry) (icon entry) "解锁失败" (Some success) out.

(** One iteration of the receive loop of [handle_unlock_messages]; the
    boolean is [completed]. *)
Definition handle_message (w : World) (sc : CrackLeafApp * bool) (msg : UnlockMessage)
    : CrackLeafApp * bool :=
  let '(s, completed) := sc in
  match msg with
  | FileResult index success op =>
      (set_file_entries (update_nth (apply_file_result w success op) index (file_entries s)) s,
       completed)
  | Info m =>
      (if is_empty (result_text s) || String.eqb (result_text s) "处理中..."
       then set_result_text m s else s, completed)
  | Done =>
      (maybe_start_success_animation (set_had_unlock true (set_work_done true s)), true)
  end.

(** [handle_unlock_messages]: [received] is how many of the pending
    messages the worker has sent by now; [try_recv] drains exactly those. *)
Definition handle_unlock_messages (w : World) (received : nat) (s : CrackLeafApp)
    : CrackLeafApp :=
  match unlock_rx s with
  | None => s
  | Some queue =>
      let s := set_unlock_rx None s in
      let '(s, completed) := fold_left (handle_message w) (firstn received queue) (s, false) in
      if completed then s else set_unlock_rx (Some (skipn received queue)) s
  end.

(** The input of one UI frame. *)
Record FrameInput := mkFrameInput {
  tick_due : bool;                 (** the frame interval has elapsed *)
  received : nat;                  (** worker messages available *)
  dropped : list (option PathBuf); (** [raw.dropped_files], by their [path] *)
  hovered : bool;                  (** the mascot is hovered *)
  clicked : bool;                  (** the mascot is clicked *)
  picked : option (list PathBuf)   (** the file dialog's answer *)
}.

(** The dropped-files block of [update] (window resizing left out). *)
Definition drop_files (w : World) (dropped : list (option PathBuf)) (s : CrackLeafApp)
    : CrackLeafApp :=
  match dropped with
  | [] => s
  | _ =>
      let paths := flat_map (fun o => match o with Some p => [p] | None => [] end) dropped in
      let s := add_files w paths s in
      match file_entries s with
      | [] => s
      | _ => start_happy_loop s
      end
  end.

(** The hover block of [update]. *)
Definition hover_mascot (hovered : bool) (s : CrackLeafApp) : CrackLeafApp :=
  if negb (unlock_in_progress s) && negb (match file_entries s with [] => true | _ => false end)
  then
    if hovered then set_mode Logo s
    else if negb (mode_eqb (mode (animation s)) HappyLoop) then start_happy_loop s
    else s
  else s.

(** The click block of [update]. *)
Definition click_mascot (w : World) (picked : option (list PathBuf)) (s : CrackLeafApp)
    : CrackLeafApp :=
  match file_entries s with
  | [] =>
      match picked with
      | Some paths =>
          let s := add_files w paths s in
          match file_entries s with
          | [] => s
          | _ => start_happy_loop s
          end
      | None => s
      end
  | _ =>
      if negb (qpdf_ok s) then
        match qpdf_error s with
        | Some msg => set_result_text msg s
        | None => s
        end
      else start_unlock w s
  end.

(** The one-shot install prompt at the end of [update]. *)
Definition prompt_qpdf (s : CrackLeafApp) : CrackLeafApp :=
  if negb (qpdf_ok s) && negb (qpdf_prompted s) then set_qpdf_prompted true s else s.

(** [eframe::App::update]: one UI frame. *)
Definition update (w : World) (inp : FrameInput) (s : CrackLeafApp) : CrackLeafApp :=
  let s := tick_animation (tick_due inp) s in
  let s := handle_unlock_messages w (received inp) s in
  let s := drop_files w (dropped inp) s in
  let s := hover_mascot (hovered inp) s in
  let s := if clicked inp then click_mascot w (picked inp) s else s in
  prompt_qpdf s.

(** A run of frames. *)
Fixpoint run_frames (w : World) (inputs : list FrameInput) (s : CrackLeafApp) : CrackLeafApp :=
  match inputs with
  | [] => s
  | inp :: rest => run_frames w rest (update w inp s)
  end.

(* ================================================================== *)
(** ** Concrete surroundings used by the examples                     *)

(** qpdf reports every input encrypted and decrypts every file into the
    download directory, which starts empty. *)
Definition world_all_ok : World :=
  mkWorld (fun _ => IoOk (mkOutput true "File is encrypted" ""))
    (Some "/home/u/Downloads") None (fun _ => false) (fun _ _ => IoOk (true, true)).

(** A healthy qpdf at startup. *)
Definition app_ready : CrackLeafApp :=
  new (check_qpdf_ready (IoOk (mkOutput true "qpdf version 11.9.0" ""))).

Definition frame (due : bool) (n : nat) (d : list (option PathBuf)) (c : bool) : FrameInput :=
  mkFrameInput due n d false c None.

(** Drop [a.pdf], click, let Peck play its two loops before the worker
    has reported anything, then drop [b.pdf] while the unlock is running. *)
Definition peck_done_then_drop : list FrameInput :=
  [frame false 0 [Some "/tmp/a.pdf"] false; frame false 0 [] true;
   frame true 0 [] false; frame true 0 [] false; frame true 0 [] false;
   frame true 0 [] false; frame false 0 [Some "/tmp/b.pdf"] false].

(** The frame in which both messages of the worker arrive. *)
Definition worker_reports : FrameInput := frame false 2 [] false.

(** In the Success animation both rendezvous flags are set. *)
Definition rendezvous_inv (s : CrackLeafApp) : Prop :=
  mode (animation s) = Success ->
  unlock_ready_for_success s = true /\ unlock_work_done s = true.

(** The state after [peck_done_then_drop] with the worker's [Done]
    received: both flags are set, one entry of two has succeeded. *)
Definition at_rendezvous : CrackLeafApp :=
  let s := run_frames world_all_ok peck_done_then_drop app_ready in
  set_file_entries
    (update_nth (apply_file_result world_all_ok true (Some "/home/u/Downloads/a_unlocked.pdf"))
       0 (file_entries s))
    (set_work_done true s).

(** The naming rule as the spec words it: [<stem>_unlocked.pdf] if free,
    else the first free [<stem>_unlocked_i.pdf] for [i] from 1 to 9999,
    else [<stem>_unlocked_overflow.pdf]. *)
Definition output_path_by_rule (fs : FileSystem) (dir stem : string) : PathBuf :=
  let plain := join dir (stem ++ "_unlocked.pdf") in
  let numbered i := join dir (stem ++ "_unlocked_" ++ usize_to_string i ++ ".pdf") in
  if negb (fs plain) then plain
  else
    match find (fun i => negb (fs (numbered i))) (seq 1 9999) with
    | Some i => numbered i
    | None => join dir (stem ++ "_unlocked_overflow.pdf")
    end.

(** The substrings of the spec's encryption classification (§4.2). *)
Definition encrypted_markers : list string :=
  ["file is encrypted"; "encryption: yes"; "user password"; "owner password"].

Definition unencrypted_markers : list string :=
  ["file is not encrypted"; "not encrypted"].

(** qpdf exits with success on every input but never writes the output. *)
Definition world_no_output : World :=
  mkWorld (fun _ => IoOk (mkOutput true "File is encrypted" ""))
    (Some "/home/u/Downloads") None (fun _ => false) (fun _ _ => IoOk (true, false)).

(** qpdf can still be probed but every decryption fails to spawn. *)
Definition world_spawn_fails : World :=
  mkWorld (fun _ => IoOk (mkOutput true "File is encrypted" ""))
    (Some "/home/u/Downloads") None (fun _ => false)
    (fun _ _ => IoErr "No such file or directory").

(** Strings without whitespace. *)
Fixpoint no_whitespace (s : string) : bool :=
  match s with
  | EmptyString => true
  | String c s' => negb (is_whitespace c) && no_whitespace s'
  end.

(** The spec's version token: the first whitespace-separated token whose
    first character is an ASCII digit. *)
Definition starts_with_digit (t : string) : bool :=
  match t with
  | EmptyString => false
  | String c _ => is_ascii_digit c
  end.

Definition version_token_by_rule (out : string) : option string :=
  find starts_with_digit (split_whitespace out).

(** The startup probe as the amended claim states it. *)
Definition qpdf_status_by_rule (output : io_result Output) : QpdfStatus :=
  match output with
  | IoOk o =>
      if status_success o then
        match version_token_by_rule (stdout o) with
        | Some v => mkQpdfStatus true None (Some v) None
        | None => mkQpdfStatus true None None (Some "已检测到 qpdf，但版本无法识别")
        end
      else
        let err := trim (stderr o) in
        mkQpdfStatus false
          (Some (if is_empty err then "qpdf 运行失败（依赖缺失或版本不匹配）"
                 else "qpdf 运行失败：" ++ err)) None None
  | IoErr err =>
      mkQpdfStatus false (Some ("qpdf 不可用（请把 qpdf 放在程序同目录）：" ++ err)) None None
  end.

Definition numbered_pdfs (n : nat) : list (option PathBuf) :=
  map (fun i => Some ("/tmp/f" ++ usize_to_string i ++ ".pdf")) (seq 1 n).

(** A session whose startup probe failed to spawn qpdf, with [a.pdf] dropped. *)
Definition app_missing_with_file : CrackLeafApp :=
  update world_all_ok (frame false 0 [Some "/tmp/a.pdf"] false)
    (new (check_qpdf_ready (IoErr "No such file or directory"))).

(* ================================================================== *)
(** ** Start-up lookups, textures and the Windows build scripts       *)

(** What the program finds about its own launch. *)
Record Launch := mkLaunch {
  current_exe : option PathBuf;       (** [std::env::current_exe()] *)
  current_dir : option PathBuf;       (** [std::env::current_dir()] *)
  on_windows : bool;                  (** [cfg!(target_os = "windows")] *)
  launch_exists : PathBuf -> bool     (** [Path::exists] *)
}.

(** [qpdf_filename]. *)
Definition qpdf_filename (l : Launch) : string :=
  if on_windows l then "qpdf.exe" else "qpdf".

(** [resolve_qpdf_command]. *)
Definition resolve_qpdf_command (l : Launch) : PathBuf :=
  let filename := qpdf_filename l in
  let from_exe :=
    match current_exe l with
    | Some exe_path =>
        match parent exe_path with
        | Some exe_dir =>
            let candidate := join exe_dir filename in
            if launch_exists l candidate then Some candidate else None
        | None => None
        end
    | None => None
    end in
  match from_exe with
  | Some candidate => candidate
  | None =>
      match current_dir l with
      | Some cwd =>
          let candidate := join cwd filename in
          if launch_exists l candidate then candidate else filename
      | None => filename
      end
  end.

(** [resolve_assets_dir]. *)
Definition resolve_assets_dir (l : Launch) : PathBuf :=
  let from_cwd :=
    match current_dir l with
    | Some cwd =>
        let assets := join cwd "assets" in
        if launch_exists l assets then Some assets else None
    | None => None
    end in
  match from_cwd with
  | Some assets => assets
  | None =>
      let from_exe :=
        match current_exe l with
        | Some exe_path =>
            match parent exe_path with
            | Some exe_dir =>
                let assets := join exe_dir "assets" in
                if launch_exists l assets then Some assets
                else
                  let macos_bundle_assets :=
                    join (join (join exe_dir "..") "Resources") "assets" in
                  if launch_exists l macos_bundle_assets then Some macos_bundle_assets
                  else None
            | None => None
            end
        | None => None
        end in
      match from_exe with
      | Some assets => assets
      | None => "assets"
      end
  end.

(** A loaded texture, or the red placeholder [load_placeholder] makes. *)
Inductive Texture :=
| Loaded (path : PathBuf) (name : string)
| Placeholder (name : string).

(** The [sets] table of [load_frames]. *)
Definition frame_sets : list (string * list string) :=
  [("logo", ["crackleaf"]);
   ("happy_loop", ["高兴1"; "高兴2"; "高兴3"; "高兴4"; "高兴3"; "高兴2"; "高兴1"]);
   ("peck", ["啄1"; "啄2"]);
   ("success", ["成功1"; "成功2"; "成功3"; "成功4"; "成功5"]);
   ("success_reverse", ["成功5"; "成功4"; "成功3"; "成功2"; "成功1"])].

(** The inner loop of [load_frames] over the enumerated names of one set;
    [loads] says whether [load_texture] succeeds on a path. *)
Fixpoint load_set (loads : PathBuf -> bool) (assets_dir key : string) (idx : nat)
    (names : list string) : list Texture :=
  match names with
  | [] => []
  | name :: rest =>
      let path := join assets_dir (name ++ ".png") in
      (if loads path then Loaded path (key ++ "_" ++ usize_to_string idx)
       else Placeholder (key ++ "_placeholder_" ++ usize_to_string idx))
      :: load_set loads assets_dir key (S idx) rest
  end.

(** [load_frames] with the textures themselves. *)
Definition load_frame_textures (loads : PathBuf -> bool) (assets_dir : PathBuf)
    : list (string * list Texture) :=
  map (fun kn => (fst kn, load_set loads assets_dir (fst kn) 0 (snd kn))) frame_sets.

(** What the build scripts see. *)
Record BuildEnv := mkBuildEnv {
  target_os : string;                        (** [CARGO_CFG_TARGET_OS], or "" *)
  qpdf_path_var : option string;             (** [env::var("QPDF_PATH").ok()] *)
  manifest_dir : PathBuf;                    (** [CARGO_MANIFEST_DIR], or "" *)
  out_dir : PathBuf;                         (** [OUT_DIR] *)
  build_exists : PathBuf -> bool;            (** [Path::exists] *)
  copy_error : PathBuf -> PathBuf -> option string;  (** [fs::copy] errors *)
  read_dir : PathBuf -> option (list PathBuf);       (** readable entries *)
  build_icon_error : option string;          (** [build_icon] errors *)
  icon_compile_error : option string         (** [WindowsResource::compile] errors *)
}.

(** What a build script does, in order. *)
Inductive BuildAction :=
| Stdout (line : string)
| CopyFile (src dst : PathBuf)
| EmbedIcon (ico : PathBuf).

(** The [qpdf_path] match: [QPDF_PATH] unless empty, else [tools/qpdf.exe]
    when present. *)
Definition build_qpdf_path (e : BuildEnv) : option PathBuf :=
  let tool_path := join (join (manifest_dir e) "tools") "qpdf.exe" in
  match match qpdf_path_var e with
        | Some s => if is_empty s then None else Some s
        | None => None
        end with
  | Some path => Some path
  | None => if build_exists e tool_path then Some tool_path else None
  end.

(** [out_dir.ancestors().nth(3)]. *)
Definition ancestor3 (p : PathBuf) : option PathBuf :=
  match parent p with
  | Some a => match parent a with Some b => parent b | None => None end
  | None => None
  end.

Definition build_target_dir (e : BuildEnv) : PathBuf :=
  match ancestor3 (out_dir e) with Some t => t | None => out_dir e end.

(** The [read_dir] loop: every [.dll] (any case) next to qpdf. *)
Definition dll_copies (target_dir : PathBuf) (entries : list PathBuf) : list BuildAction :=
  flat_map (fun path =>
    match extension path with
    | Some ext =>
        if eq_ignore_ascii_case ext "dll" then
          match file_name path with
          | Some fname => [CopyFile path (join target_dir fname)]
          | None => []
          end
        else []
    | None => []
    end) entries.

(** From [let out_dir] to the end of the DLL loop. *)
Definition copy_qpdf_actions (e : BuildEnv) (qpdf_path : PathBuf) : list BuildAction :=
  let target_dir := build_target_dir e in
  let dest_path := join target_dir "qpdf.exe" in
  CopyFile qpdf_path dest_path ::
  app (match copy_error e qpdf_path dest_path with
       | Some err => [Stdout ("cargo:warning=Failed to copy qpdf.exe: " ++ err)]
       | None => []
       end)
      (match parent qpdf_path with
       | Some par => match read_dir e par with
                     | Some entries => dll_copies target_dir entries
                     | None => []
                     end
       | None => []
       end).

(** [main] of [crackleaf-rs/build.rs]. *)
Definition crackleaf_build_main (e : BuildEnv) : list BuildAction :=
  if negb (String.eqb (target_os e) "windows") then []
  else
    Stdout "cargo:rerun-if-env-changed=QPDF_PATH" ::
    match build_qpdf_path e with
    | Some qpdf_path => copy_qpdf_actions e qpdf_path
    | None => [Stdout "cargo:warning=Windows build: qpdf.exe not found in tools/"]
    end.

(** The icon step of the workspace [build.rs]. *)
Definition icon_actions (e : BuildEnv) : list BuildAction :=
  let png_path := join (join (manifest_dir e) "assets") "crackleaf.png" in
  if build_exists e png_path then
    let ico_path := join (out_dir e) "crackleaf.ico" in
    match build_icon_error e with
    | Some err => [Stdout ("cargo:warning=Failed to build icon: " ++ err)]
    | None =>
        match icon_compile_error e with
        | Some err => [Stdout ("cargo:warning=Failed to set icon: " ++ err)]
        | None => [EmbedIcon ico_path]
        end
    end
  else [Stdout "cargo:warning=Icon source not found: assets/crackleaf.png"].

(** [main] of the workspace [build.rs]. *)
Definition workspace_build_main (e : BuildEnv) : list BuildAction :=
  if negb (String.eqb (target_os e) "windows") then []
  else
    Stdout "cargo:rerun-if-env-changed=QPDF_PATH" ::
    match build_qpdf_path e with
    | Some qpdf_path => app (copy_qpdf_actions e qpdf_path) (icon_actions e)
    | None => [Stdout "cargo:warning=Windows build: qpdf.exe not found in tools/"]
    end.

(** A Windows build with [QPDF_PATH] set, two DLLs (one in upper case)
    and a read-me next to qpdf. *)
Definition build_env_example : BuildEnv :=
  mkBuildEnv "windows" (Some "/opt/qpdf/bin/qpdf.exe") "/w/crackleaf"
    "/w/target/release/build/crackleaf-1a2b/out" (fun _ => true) (fun _ _ => None)
    (fun _ => Some ["/opt/qpdf/bin/qpdf.exe"; "/opt/qpdf/bin/libqpdf30.DLL";
                    "/opt/qpdf/bin/zlib1.dll"; "/opt/qpdf/bin/README.txt"])
    None None.

(* ================================================================== *)
(** ** Vocabulary for further properties of the code                  *)

(** [n] animation ticks with the frame interval elapsed and no other input. *)
Fixpoint ticks (n : nat) (s : CrackLeafApp) : CrackLeafApp :=
  match n with
  | O => s
  | S k => tick_animation true (ticks k s)
  end.

(** The [frame_count] [tick_animation] uses for a mode. *)
Definition mode_frame_count (m : AnimationMode) (s : CrackLeafApp) : nat :=
  match m with
  | Logo => 1
  | HappyLoop => frame_count_of (frames s) "happy_loop"
  | Peck => frame_count_of (frames s) "peck"
  | Success =>
      if success_reverse s then frame_count_of (frames s) "success_reverse"
      else frame_count_of (frames s) "success"
  end.

(** No two paths of the list are equal as [PathBuf]s. *)
Fixpoint distinct_paths (l : list PathBuf) : Prop :=
  match l with
  | [] => True
  | p :: l' => Forall (fun q => path_eqb p q = false) l' /\ distinct_paths l'
  end.

(** The entry list holds only PDF paths, pairwise distinct. *)
Definition entries_ok (es : list FileEntry) : Prop :=
  Forall (fun p => is_pdf p = true) (map path es) /\ distinct_paths (map path es).

Definition is_done (m : UnlockMessage) : bool :=
  match m with Done => true | _ => false end.

(** The indices of the [FileResult] messages, in order. *)
Fixpoint file_result_indices (msgs : list UnlockMessage) : list nat :=
  match msgs with
  | [] => []
  | FileResult i _ _ :: rest => i :: file_result_indices rest
  | _ :: rest => file_result_indices rest
  end.

(** A [FileResult] reports success exactly when it carries a path. *)
Definition message_wf (m : UnlockMessage) : Prop :=
  match m with
  | FileResult _ success op => success = match op with Some _ => true | None => false end
  | _ => True
  end.

(** An entry recorded as unlocked has an output path. *)
Definition success_has_output (e : FileEntry) : Prop :=
  unlock_result e = Some true -> output_path e <> None.

(** Every unlocked entry has an output path, and every message still
    pending on the receiver is well formed. *)
Definition outputs_ok (s : CrackLeafApp) : Prop :=
  Forall success_has_output (file_entries s) /\
  (forall q, unlock_rx s = Some q -> Forall message_wf q).

(** The text of the first [Info] message. *)
Fixpoint first_info (msgs : list UnlockMessage) : option string :=
  match msgs with
  | [] => None
  | Info m :: _ => Some m
  | _ :: rest => first_info rest
  end.

(** An [Info] message whose text would not itself be overwritten by a
    later one (neither empty nor the in-progress text). *)
Definition info_informative (m : UnlockMessage) : bool :=
  match m with
  | Info t => negb (is_empty t || String.eqb t "处理中...")
  | _ => true
  end.

(** An unlock is running, Peck is no longer playing (the mascot is in
    HappyLoop) and Peck's end has not been recorded. *)
Definition stuck_in_happy_loop (s : CrackLeafApp) : Prop :=
  mode (animation s) = HappyLoop /\ unlock_in_progress s = true /\
  unlock_ready_for_success s = false.

(* ================================================================== *)
(** ** The Peck/worker rendezvous                                     *)

Arguments maybe_start_success_animation : simpl never.
Arguments set_mode : simpl never.
Arguments add_files : simpl never.
Arguments start_unlock : simpl never.

Ltac rendezvous_cases :=
  repeat match goal with
  | |- context [if ?c then _ else _] => destruct c eqn:?
  | |- context [match ?l with [] => _ | _ :: _ => _ end] => destruct l eqn:?
  end.

Lemma rendezvous_inv_not_success s :
  mode (animation s) <> Success -> rendezvous_inv s.
Proof. intros H E. contradiction. Qed.

Lemma rendezvous_inv_maybe_start s :
  rendezvous_inv s -> rendezvous_inv (maybe_start_success_animation s).
Proof.
  intros H. unfold maybe_start_success_animation.
  destruct (unlock_ready_for_success s) eqn:R, (unlock_work_done s) eqn:D;
    cbn; try exact H.
  intros _. unfold start_success. destruct s; cbn in *.
  rendezvous_cases; cbn; auto.
Qed.

Lemma rendezvous_inv_set_mode m s :
  m <> Success -> rendezvous_inv s -> rendezvous_inv (set_mode m s).
Proof.
  intros Hm H. unfold set_mode.
  destruct (mode_eqb (mode (animation s)) m); [exact H|].
  apply rendezvous_inv_not_success. destruct s; cbn. exact Hm.
Qed.

Lemma rendezvous_inv_tick due s :
  rendezvous_inv s -> rendezvous_inv (tick_animation due s).
Proof.
  intros H. destruct s as [fr es [m fi ll] ip rd wd rt rx rv ok er vr wr hu pr].
  unfold tick_animation; cbn.
  destruct m; cbn; try exact H; rendezvous_cases; cbn; try exact H;
    try (apply rendezvous_inv_not_success; cbn; discriminate);
    try (apply rendezvous_inv_maybe_start, rendezvous_inv_set_mode;
         [discriminate | apply rendezvous_inv_not_success; cbn; discriminate]);
    try (apply rendezvous_inv_set_mode; [discriminate | exact H]).
Qed.

Lemma rendezvous_inv_handle_message w sc msg :
  rendezvous_inv (fst sc) -> rendezvous_inv (fst (handle_message w sc msg)).
Proof.
  destruct sc as [s c]; cbn. intros H.
  destruct msg; cbn.
  - destruct s; exact H.
  - destruct (_ || _); [destruct s; exact H | exact H].
  - apply rendezvous_inv_maybe_start. destruct s; cbn in *.
    intros E. destruct (H E). auto.
Qed.

Lemma rendezvous_inv_fold w msgs sc :
  rendezvous_inv (fst sc) ->
  rendezvous_inv (fst (fold_left (handle_message w) msgs sc)).
Proof.
  revert sc. induction msgs as [|m msgs IH]; intros sc H; cbn; [exact H|].
  apply IH, rendezvous_inv_handle_message, H.
Qed.

Lemma rendezvous_inv_handle w n s :
  rendezvous_inv s -> rendezvous_inv (handle_unlock_messages w n s).
Proof.
  intros H. unfold handle_unlock_messages.
  destruct (unlock_rx s) as [q|]; [|exact H].
  pose proof (rendezvous_inv_fold w (firstn n q) (set_unlock_rx None s, false)) as F.
  destruct (fold_left _ _ _) as [s' c]; cbn in F.
  assert (rendezvous_inv s') as H' by (apply F; destruct s; exact H).
  destruct c; [exact H'|]. destruct s'; exact H'.
Qed.

Lemma add_files_animation w paths s :
  animation (add_files w paths s) = animation s /\
  unlock_ready_for_success (add_files w paths s) = unlock_ready_for_success s /\
  unlock_work_done (add_files w paths s) = unlock_work_done s /\
  unlock_in_progress (add_files w paths s) = unlock_in_progress s.
Proof.
  unfold add_files.
  destruct (had_unlock s);
    destruct (add_paths _ _ _ _) as [es a]; destruct a; destruct s; cbn; auto.
Qed.

Lemma rendezvous_inv_add_files w paths s :
  rendezvous_inv s -> rendezvous_inv (add_files w paths s).
Proof.
  unfold rendezvous_inv. destruct (add_files_animation w paths s) as (A & R & D & _).
  rewrite A, R, D. auto.
Qed.

Lemma rendezvous_inv_happy s :
  rendezvous_inv s -> rendezvous_inv (start_happy_loop s).
Proof. apply rendezvous_inv_set_mode. discriminate. Qed.

Lemma rendezvous_inv_start_unlock w s :
  rendezvous_inv s -> rendezvous_inv (start_unlock w s).
Proof.
  intros H. unfold start_unlock.
  destruct (_ || _); [exact H|].
  apply rendezvous_inv_not_success. destruct s; cbn. discriminate.
Qed.

Lemma rendezvous_inv_update w inp s :
  rendezvous_inv s -> rendezvous_inv (update w inp s).
Proof.
  intros H. unfold update.
  apply (rendezvous_inv_tick (tick_due inp)) in H.
  apply (rendezvous_inv_handle w (received inp)) in H.
  set (s1 := handle_unlock_messages _ _ _) in *; clearbody s1.
  assert (H2 : rendezvous_inv (drop_files w (dropped inp) s1)).
  { unfold drop_files. destruct (dropped inp); [exact H|].
    pose proof (rendezvous_inv_add_files w
      (flat_map (fun o => match o with Some p => [p] | None => [] end) (o :: l)) s1 H) as A.
    destruct (file_entries (add_files _ _ _)); [exact A | apply rendezvous_inv_happy, A]. }
  set (s2 := drop_files _ _ _) in *; clearbody s2.
  assert (H3 : rendezvous_inv (hover_mascot (hovered inp) s2)).
  { unfold hover_mascot. destruct (_ && _); [|exact H2].
    destruct (hovered inp); [apply rendezvous_inv_set_mode; [discriminate | exact H2]|].
    destruct (negb _); [apply rendezvous_inv_happy, H2 | exact H2]. }
  set (s3 := hover_mascot _ _) in *; clearbody s3.
  assert (H4 : rendezvous_inv (if clicked inp then click_mascot w (picked inp) s3 else s3)).
  { destruct (clicked inp); [|exact H3]. unfold click_mascot.
    destruct (file_entries s3).
    - destruct (picked inp) as [paths|]; [|exact H3].
      pose proof (rendezvous_inv_add_files w paths s3 H3) as A.
      destruct (file_entries (add_files _ _ _)); [exact A | apply rendezvous_inv_happy, A].
    - destruct (negb (qpdf_ok s3)).
      + destruct (qpdf_error s3); [destruct s3; exact H3 | exact H3].
      + apply rendezvous_inv_start_unlock, H3. }
  set (s4 := if clicked inp then _ else _) in *; clearbody s4.
  unfold prompt_qpdf. destruct (_ && _); [destruct s4; exact H4 | exact H4].
Qed.

Lemma success_count_le es : success_count es <= length es.
Proof.
  unfold success_count. induction es as [|e es IH]; cbn; [lia|].
  destruct (unlock_result e) as [[]|]; cbn; lia.
Qed.

(* ================================================================== *)
(** ** Claims                                                          *)

(** C1: in every UI frame, the animation switches to Success only if, in
    the resulting state, both [unlock_ready_for_success] (set when Peck's
    loop count reaches zero) and [unlock_work_done] (set on [Done]) hold;
    with either flag false no frame enters Success, whichever of Peck and
    the worker finishes first. *)
Theorem success_starts_only_at_rendezvous w inp s :
  mode (animation s) <> Success ->
  mode (animation (update w inp s)) = Success ->
  unlock_ready_for_success (update w inp s) = true /\
  unlock_work_done (update w inp s) = true.
Proof.
  intros H. apply rendezvous_inv_update, rendezvous_inv_not_success, H.
Qed.

Lemma success_starts_only_at_rendezvous_witness :
  let s := run_frames world_all_ok peck_done_then_drop app_ready in
  mode (animation s) <> Success /\
  mode (animation (update world_all_ok worker_reports s)) = Success /\
  unlock_ready_for_success (update world_all_ok worker_reports s) = true /\
  unlock_work_done (update world_all_ok worker_reports s) = true.
Proof.
  cbv zeta. split; [vm_compute; intro E; discriminate E|].
  split; [vm_compute; reflexivity|].
  apply success_starts_only_at_rendezvous;
    [vm_compute; intro E; discriminate E | vm_compute; reflexivity].
Defined.

(** C4: at the rendezvous, with N entries of which K succeeded, Success
    plays forward when K >= 1 and in reverse when K = 0 and N >= 1; the
    summary is "解锁成功" when K = N >= 1, "部分成功: K/N" when
    0 < K < N and "解锁失败" when K = 0. *)
Theorem rendezvous_outcome s :
  unlock_ready_for_success s = true ->
  unlock_work_done s = true ->
  let s' := maybe_start_success_animation s in
  let K := success_count (file_entries s) in
  let N := length (file_entries s) in
  mode (animation s') = Success /\
  (1 <= K -> success_reverse s' = false) /\
  (K = 0 -> 1 <= N -> success_reverse s' = true) /\
  (K = N -> 1 <= N -> result_text s' = "解锁成功") /\
  (0 < K -> K < N ->
     result_text s' = "部分成功: " ++ usize_to_string K ++ "/" ++ usize_to_string N) /\
  (K = 0 -> result_text s' = "解锁失败").
Proof.
  intros R D. cbv zeta. unfold maybe_start_success_animation. rewrite R, D.
  cbv zeta. simpl negb. cbv iota.
  pose proof (success_count_le (file_entries s)) as LE.
  set (K := success_count (file_entries s)) in *.
  set (N := length (file_entries s)) in *.
  destruct (Nat.eqb_spec K N), (Nat.ltb_spec0 0 N), (Nat.ltb_spec0 0 K), (Nat.eqb_spec K 0);
    cbn; repeat split; intros; try lia; reflexivity.
Qed.

Lemma rendezvous_outcome_witness :
  unlock_ready_for_success at_rendezvous = true /\
  unlock_work_done at_rendezvous = true /\
  result_text (maybe_start_success_animation at_rendezvous) = "部分成功: 1/2" /\
  mode (animation (maybe_start_success_animation at_rendezvous)) = Success.
Proof.
  split; [vm_compute; reflexivity|]. split; [vm_compute; reflexivity|].
  pose proof (rendezvous_outcome at_rendezvous
    ltac:(vm_compute; reflexivity) ltac:(vm_compute; reflexivity)) as H.
  cbv zeta in H. destruct H as (M & _ & _ & _ & P & _).
  split; [|exact M].
  rewrite P; [vm_compute; reflexivity | vm_compute; lia | vm_compute; lia].
Defined.

Lemma string_append_assoc (a b c : string) : (a ++ b) ++ c = a ++ (b ++ c).
Proof. induction a as [|x a IH]; cbn; [reflexivity | rewrite IH; reflexivity]. Qed.

Lemma find_ext {A : Type} (f g : A -> bool) (l : list A) :
  (forall x, f x = g x) -> find f l = find g l.
Proof.
  intros H. induction l as [|x l IH]; cbn; [reflexivity|].
  rewrite H. destruct (g x); [reflexivity | exact IH].
Qed.

Lemma unique_output_loop_find fs dir base fuel : forall idx,
  unique_output_loop fs dir base idx fuel =
  match find (fun i => negb (fs (join dir (base ++ "_" ++ usize_to_string i ++ ".pdf"))))
         (seq idx fuel) with
  | Some i => join dir (base ++ "_" ++ usize_to_string i ++ ".pdf")
  | None => join dir (base ++ "_overflow.pdf")
  end.
Proof.
  induction fuel as [|fuel IH]; intros idx; cbn; [reflexivity|].
  destruct (fs _); cbn; [apply IH | reflexivity].
Qed.

(** C5: for every output directory and file stem, [unique_output_path]
    returns [<stem>_unlocked.pdf] when no file exists there, otherwise the
    first [<stem>_unlocked_i.pdf] (i = 1..9999, in order) that does not
    exist, and [<stem>_unlocked_overflow.pdf] (existing or not) when all
    10000 candidates exist. *)
Theorem unique_output_path_rule fs dir stem :
  unique_output_path fs dir stem = output_path_by_rule fs dir stem.
Proof.
  unfold unique_output_path, output_path_by_rule.
  rewrite !string_append_assoc. cbn [append].
  destruct (negb (fs _)); [reflexivity|].
  rewrite unique_output_loop_find.
  assert (E : forall i, (stem ++ "_unlocked") ++ "_" ++ usize_to_string i ++ ".pdf"
                        = stem ++ "_unlocked_" ++ usize_to_string i ++ ".pdf").
  { intros i. rewrite string_append_assoc. reflexivity. }
  assert (F : forall i,
    negb (fs (join dir ((stem ++ "_unlocked") ++ "_" ++ usize_to_string i ++ ".pdf")))
    = negb (fs (join dir (stem ++ "_unlocked_" ++ usize_to_string i ++ ".pdf")))).
  { intros i. rewrite E. reflexivity. }
  rewrite (find_ext _ _ _ F). destruct (find _ _); [rewrite E|rewrite string_append_assoc]; reflexivity.
Qed.

Lemma detect_encrypted_markers r :
  detect_encrypted r =
  match r with
  | IoOk o =>
      if status_success o then
        let out := to_lowercase (stdout o) in
        if existsb (contains out) encrypted_markers then Some true
        else if existsb (contains out) unencrypted_markers then Some false
        else None
      else None
  | IoErr _ => None
  end.
Proof.
  destruct r as [o|e]; [|reflexivity]. unfold detect_encrypted.
  destruct (status_success o); [|reflexivity]. cbn - [contains].
  rewrite !orb_false_r, !orb_assoc. reflexivity.
Qed.

(** C6: [detect_encrypted] answers [Some true] (encrypted) exactly when the
    probe ran, exited with success and its lowercased stdout contains one of
    "file is encrypted", "encryption: yes", "user password", "owner
    password"; [Some false] (not encrypted) exactly when it ran, succeeded,
    contains none of those and contains "file is not encrypted" or "not
    encrypted"; and [None] (unknown) on a spawn failure, a non-zero exit,
    or when stdout contains none of the six substrings. *)
Theorem detect_encrypted_classification r :
  (detect_encrypted r = Some true <->
     exists o, r = IoOk o /\ status_success o = true /\
       existsb (contains (to_lowercase (stdout o))) encrypted_markers = true) /\
  (detect_encrypted r = Some false <->
     exists o, r = IoOk o /\ status_success o = true /\
       existsb (contains (to_lowercase (stdout o))) encrypted_markers = false /\
       existsb (contains (to_lowercase (stdout o))) unencrypted_markers = true) /\
  (detect_encrypted r = None <->
     (exists e, r = IoErr e) \/
     (exists o, r = IoOk o /\ status_success o = false) \/
     (exists o, r = IoOk o /\ status_success o = true /\
        existsb (contains (to_lowercase (stdout o))) encrypted_markers = false /\
        existsb (contains (to_lowercase (stdout o))) unencrypted_markers = false)).
Proof.
  rewrite detect_encrypted_markers.
  destruct r as [o|e].
  - destruct (status_success o) eqn:S; cbn zeta;
      [destruct (existsb _ encrypted_markers) eqn:E1;
       [|destruct (existsb _ unencrypted_markers) eqn:E2] |];
      repeat split; intros H;
      repeat match goal with
      | H : exists _, _ |- _ => destruct H
      | H : _ /\ _ |- _ => destruct H
      | H : _ \/ _ |- _ => destruct H
      | H : IoOk _ = IoOk _ |- _ => injection H as <-
      end;
      try congruence; eauto 8.
  - repeat split; intros H;
      repeat match goal with
      | H : exists _, _ |- _ => destruct H
      | H : _ /\ _ |- _ => destruct H
      | H : _ \/ _ |- _ => destruct H
      end; try congruence; eauto.
Qed.

(** C7 (counterexample): when qpdf exits with success but leaves no output
    file, the worker does not post a success without a path: it posts
    [FileResult] with [success = false]. *)
Lemma missing_output_not_posted_as_success :
  run_unlock world_no_output [new_entry world_no_output "/tmp/a.pdf"]
    = [FileResult 0 false None; Done] /\
  ~ In (FileResult 0 true None)
      (run_unlock world_no_output [new_entry world_no_output "/tmp/a.pdf"]).
Proof.
  split; [vm_compute; reflexivity|].
  vm_compute. intros [E | [E | []]]; discriminate E.
Qed.

Lemma update_nth_nth_error {A : Type} (f : A -> A) (l : list A) : forall index x,
  nth_error l index = Some x -> nth_error (update_nth f index l) index = Some (f x).
Proof.
  induction l as [|y l IH]; intros [|i] x H; cbn in *; try discriminate.
  - injection H as ->. reflexivity.
  - apply IH, H.
Qed.

Lemma update_nth_out_of_range {A : Type} (f : A -> A) (l : list A) : forall index,
  length l <= index -> update_nth f index l = l.
Proof.
  induction l as [|y l IH]; intros [|i] H; cbn in *; try reflexivity; try lia.
  rewrite IH; [reflexivity | lia].
Qed.

(** C7 (amended): when the unlock invocation exits with status zero and no
    file is at the output path afterwards, [unlock_pdf] returns [Ok(None)],
    the worker posts a per-file failure ([success = false], no path), and
    the Session sets that entry's [unlock_result] to failure without taking
    an output path from the message: an entry with no [output_path] keeps
    none. *)
Theorem missing_output_reported_as_failure :
  (forall w fs p,
     let out := unique_output_path fs (unlock_output_dir w p) (unlock_file_stem p) in
     decrypt w p out = IoOk (true, false) ->
     fs out = false ->
     fst (unlock_pdf w fs p) = IoOk None) /\
  (forall index, file_messages index (IoOk None) = [FileResult index false None]) /\
  (forall w s c index e,
     nth_error (file_entries s) index = Some e ->
     exists e',
       nth_error (file_entries (fst (handle_message w (s, c) (FileResult index false None))))
         index = Some e' /\
       unlock_result e' = Some false /\
       status e' = "解锁失败" /\
       (output_path e = None -> output_path e' = None)).
Proof.
  split; [|split].
  - intros w fs p out D F. unfold unlock_pdf. fold out. rewrite D. cbn.
    rewrite F. reflexivity.
  - reflexivity.
  - intros w s c index e H. cbn.
    exists (apply_file_result w false None e).
    split; [destruct s; apply update_nth_nth_error, H|].
    cbn. auto.
Qed.

(** C9: a [FileResult] whose index is at least the number of entries
    leaves the session state as it was ([Vec::get_mut] returns [None]; the
    model is total, there is no panic). *)
Theorem file_result_out_of_range_ignored w s c index success op :
  length (file_entries s) <= index ->
  handle_message w (s, c) (FileResult index success op) = (s, c).
Proof.
  intros H. cbn. rewrite update_nth_out_of_range by exact H.
  destruct s; reflexivity.
Qed.

Lemma file_result_out_of_range_ignored_witness :
  let s := update world_all_ok
             (frame false 0 [Some "/tmp/a.pdf"; Some "/tmp/b.pdf"] true) app_ready in
  length (file_entries s) = 2 /\ unlock_in_progress s = true /\
  length (file_entries s) <= 2 /\
  handle_message world_all_ok (s, false) (FileResult 2 true (Some "/tmp/x.pdf")) = (s, false).
Proof.
  cbv zeta. split; [vm_compute; reflexivity|]. split; [vm_compute; reflexivity|].
  split; [vm_compute; lia|].
  apply file_result_out_of_range_ignored. vm_compute. lia.
Defined.

Lemma no_whitespace_app a b :
  no_whitespace (a ++ b) = no_whitespace a && no_whitespace b.
Proof. induction a as [|c a IH]; cbn; [reflexivity | rewrite IH, andb_assoc; reflexivity]. Qed.

Lemma split_ws_aux_tokens s : forall cur,
  no_whitespace cur = true ->
  Forall (fun t => t <> EmptyString /\ no_whitespace t = true) (split_ws_aux s cur).
Proof.
  induction s as [|c s IH]; intros cur H; cbn.
  - destruct cur; cbn; [constructor|].
    constructor; [split; [discriminate | exact H] | constructor].
  - destruct (is_whitespace c) eqn:W.
    + apply Forall_app. split; [|apply IH; reflexivity].
      destruct cur; cbn; [constructor|].
      constructor; [split; [discriminate | exact H] | constructor].
    + apply IH. rewrite no_whitespace_app, H. cbn. rewrite W. reflexivity.
Qed.

Lemma string_append_nil_r a : a ++ "" = a.
Proof. induction a as [|c a IH]; cbn; [reflexivity | rewrite IH; reflexivity]. Qed.

Lemma rev_string_app a b : rev_string (a ++ b) = rev_string b ++ rev_string a.
Proof.
  induction a as [|c a IH]; cbn.
  - rewrite string_append_nil_r. reflexivity.
  - rewrite IH, string_append_assoc. reflexivity.
Qed.

Lemma rev_string_involutive s : rev_string (rev_string s) = s.
Proof.
  induction s as [|c s IH]; cbn; [reflexivity|].
  rewrite rev_string_app, IH. reflexivity.
Qed.

Lemma no_whitespace_rev s : no_whitespace (rev_string s) = no_whitespace s.
Proof.
  induction s as [|c s IH]; cbn; [reflexivity|].
  rewrite no_whitespace_app, IH. cbn. rewrite andb_true_r, andb_comm. reflexivity.
Qed.

Lemma trim_start_no_whitespace s : no_whitespace s = true -> trim_start s = s.
Proof.
  destruct s as [|c s]; cbn; [reflexivity|].
  destruct (is_whitespace c); [discriminate | reflexivity].
Qed.

Lemma trim_no_whitespace s : no_whitespace s = true -> trim s = s.
Proof.
  intros H. unfold trim. rewrite (trim_start_no_whitespace s H).
  rewrite trim_start_no_whitespace by (rewrite no_whitespace_rev; exact H).
  apply rev_string_involutive.
Qed.

Lemma parse_qpdf_version_rule out :
  parse_qpdf_version out = version_token_by_rule out.
Proof.
  unfold parse_qpdf_version, version_token_by_rule, split_whitespace.
  pose proof (split_ws_aux_tokens out EmptyString eq_refl) as F.
  induction F as [|t ts [NE NW] _ IH]; [reflexivity|].
  destruct t as [|c t']; [contradiction|].
  cbn [parse_qpdf_version_tokens find starts_with_digit].
  destruct (is_ascii_digit c); [|exact IH].
  rewrite trim_no_whitespace by exact NW. reflexivity.
Qed.

(** C8 (counterexample): on a non-zero exit the message is not the trimmed
    stderr itself but that text behind a fixed prefix. *)
Lemma qpdf_error_is_not_bare_stderr :
  qs_error (check_qpdf_ready (IoOk (mkOutput false "" "  libqpdf missing  ")))
    <> Some "libqpdf missing".
Proof. vm_compute. intros E. discriminate E. Qed.

(** C8 (amended): on exit success the probe reports ok with, as version,
    the first whitespace-separated token of stdout whose first character is
    an ASCII digit, or ok with no version and the warning "已检测到 qpdf，
    但版本无法识别" when there is none; on a non-zero exit it reports
    missing with the message "qpdf 运行失败：" followed by the trimmed
    stderr, or the fallback "qpdf 运行失败（依赖缺失或版本不匹配）" when the
    trimmed stderr is empty; on a spawn failure it reports missing with
    "qpdf 不可用（请把 qpdf 放在程序同目录）：" followed by the OS error. *)
Theorem check_qpdf_ready_rule output :
  check_qpdf_ready output = qpdf_status_by_rule output.
Proof.
  destruct output as [o|e]; [|reflexivity]. cbn.
  destruct (status_success o); [|reflexivity].
  rewrite parse_qpdf_version_rule.
  destruct (version_token_by_rule (stdout o)); reflexivity.
Qed.

Lemma add_files_one_path w s p :
  is_pdf p = true ->
  existsb (fun f => path_eqb (path f) p) (file_entries s) = false ->
  file_entries (add_files w [p] s)
    = app (if had_unlock s then [] else file_entries s) [new_entry w p].
Proof.
  intros P N. unfold add_files.
  destruct (had_unlock s); cbn; rewrite P; cbn; [|rewrite N]; destruct s; reflexivity.
Qed.

(** C2 (counterexample): dropping nine distinct PDF paths on a fresh
    session leaves nine entries. *)
Lemma nine_dropped_pdfs_all_kept :
  length (file_entries (update world_all_ok (frame false 0 (numbered_pdfs 9) false) app_ready))
    = 9.
Proof. vm_compute. reflexivity. Qed.

(** C2 (amended): Add has no size limit: when [had_unlock] is false, a path
    with a [.pdf] extension that is not in the list is appended whatever
    the current length, so the list can grow past 8 entries
    ([LIST_MAX_FILES] only caps the window height). *)
Theorem add_files_appends_without_limit w s p :
  had_unlock s = false ->
  is_pdf p = true ->
  existsb (fun f => path_eqb (path f) p) (file_entries s) = false ->
  file_entries (add_files w [p] s) = app (file_entries s) [new_entry w p].
Proof.
  intros H P N. rewrite add_files_one_path by assumption. rewrite H. reflexivity.
Qed.

Lemma add_files_appends_without_limit_witness :
  let s := update world_all_ok (frame false 0 (numbered_pdfs 8) false) app_ready in
  had_unlock s = false /\ is_pdf "/tmp/f9.pdf" = true /\
  existsb (fun f => path_eqb (path f) "/tmp/f9.pdf") (file_entries s) = false /\
  length (file_entries s) = 8 /\
  file_entries (add_files world_all_ok ["/tmp/f9.pdf"] s)
    = app (file_entries s) [new_entry world_all_ok "/tmp/f9.pdf"].
Proof.
  cbv zeta. split; [vm_compute; reflexivity|]. split; [vm_compute; reflexivity|].
  split; [vm_compute; reflexivity|]. split; [vm_compute; reflexivity|].
  apply add_files_appends_without_limit; vm_compute; reflexivity.
Defined.

(** C10: dropping files is not blocked while an unlock is in progress: a
    new path with a [.pdf] extension is appended (after the list is first
    emptied if the session already received [Done], as Add does whenever
    [had_unlock] is set), [unlock_in_progress] stays set, and the animation
    becomes HappyLoop.  The worker keeps the snapshot it was started with,
    so the list at the rendezvous can differ from it (see the witness). *)
Theorem drop_during_unlock_appends w s p :
  unlock_in_progress s = true ->
  is_pdf p = true ->
  existsb (fun f => path_eqb (path f) p) (file_entries s) = false ->
  let s' := drop_files w [Some p] s in
  file_entries s' = app (if had_unlock s then [] else file_entries s) [new_entry w p] /\
  unlock_in_progress s' = true /\
  mode (animation s') = HappyLoop.
Proof.
  intros U P N. cbv zeta. unfold drop_files. cbn [flat_map app].
  pose proof (add_files_one_path w s p P N) as E.
  destruct (add_files_animation w [p] s) as (_ & _ & _ & I).
  set (s1 := add_files w [p] s) in *. clearbody s1.
  rewrite E. destruct (had_unlock s); cbn [app];
    [|destruct (file_entries s); cbn [app]];
    unfold start_happy_loop, set_mode;
    destruct (mode_eqb (mode (animation s1)) HappyLoop) eqn:M;
    destruct s1 as [fr es [m fi ll] ip rd wd rt rx rv ok er vr wr hu pr];
    cbn in *; subst; repeat split; try congruence;
    destruct m; try discriminate; reflexivity.
Qed.

Lemma drop_during_unlock_appends_witness :
  let s := run_frames world_all_ok (firstn 6 peck_done_then_drop) app_ready in
  unlock_in_progress s = true /\ is_pdf "/tmp/b.pdf" = true /\
  existsb (fun f => path_eqb (path f) "/tmp/b.pdf") (file_entries s) = false /\
  (file_entries (drop_files world_all_ok [Some "/tmp/b.pdf"] s)
     = app (if had_unlock s then [] else file_entries s) [new_entry world_all_ok "/tmp/b.pdf"] /\
   unlock_in_progress (drop_files world_all_ok [Some "/tmp/b.pdf"] s) = true /\
   mode (animation (drop_files world_all_ok [Some "/tmp/b.pdf"] s)) = HappyLoop) /\
  unlock_rx s = Some (run_unlock world_all_ok [new_entry world_all_ok "/tmp/a.pdf"]) /\
  result_text (update world_all_ok worker_reports
                 (run_frames world_all_ok peck_done_then_drop app_ready)) = "部分成功: 1/2".
Proof.
  cbv zeta. split; [vm_compute; reflexivity|]. split; [vm_compute; reflexivity|].
  split; [vm_compute; reflexivity|].
  split; [apply drop_during_unlock_appends; vm_compute; reflexivity|].
  split; vm_compute; reflexivity.
Defined.

(** C3 (counterexample): with the tool missing, a click on the mascot (the
    path that leads to [start_unlock]) is not a no-op: it replaces
    [result_text] with the tool error. *)
Lemma click_without_tool_changes_result_text :
  click_mascot world_all_ok None app_missing_with_file <> app_missing_with_file.
Proof.
  intros E. apply (f_equal result_text) in E. vm_compute in E. discriminate E.
Qed.

(** C3 (amended): [start_unlock] is a no-op when an unlock is in progress
    or the list is empty; otherwise it sets [unlock_in_progress], clears
    [unlock_work_done] and [unlock_ready_for_success], sets [result_text]
    to "处理中...", switches to Peck with frame 0 and [loops_left = 2], and
    spawns the worker on a snapshot of the entries.  The tool-status check
    is in the mascot-click handler: with a non-empty list, a click runs
    [start_unlock] when the tool is ok, and otherwise spawns no worker and
    changes nothing but [result_text], set to the recorded tool error. *)
Theorem start_unlock_behaviour w s picked :
  ((unlock_in_progress s = true \/ file_entries s = []) -> start_unlock w s = s) /\
  (unlock_in_progress s = false -> file_entries s <> [] ->
     let s' := start_unlock w s in
     unlock_in_progress s' = true /\
     unlock_ready_for_success s' = false /\
     unlock_work_done s' = false /\
     result_text s' = "处理中..." /\
     animation s' = mkAnimationState Peck 0 2 /\
     unlock_rx s' = Some (run_unlock w (file_entries s)) /\
     file_entries s' = file_entries s) /\
  (file_entries s <> [] -> qpdf_ok s = true -> click_mascot w picked s = start_unlock w s) /\
  (file_entries s <> [] -> qpdf_ok s = false ->
     click_mascot w picked s =
       set_result_text
         (match qpdf_error s with Some msg => msg | None => result_text s end) s).
Proof.
  split; [|split; [|split]].
  - unfold start_unlock. intros [H | H]; rewrite H; [reflexivity|].
    rewrite orb_true_r. reflexivity.
  - unfold start_unlock. intros H N. rewrite H. destruct (file_entries s) eqn:E; [contradiction|].
    destruct s; cbn in *; subst. repeat split.
  - unfold click_mascot. intros N O. destruct (file_entries s) eqn:E; [contradiction|].
    rewrite O. reflexivity.
  - unfold click_mascot. intros N O. destruct (file_entries s) eqn:E; [contradiction|].
    rewrite O. cbn. destruct (qpdf_error s); [reflexivity|]. destruct s; reflexivity.
Qed.

(* ================================================================== *)
(** ** Further properties of the worker                               *)

Lemma file_result_indices_app a b :
  file_result_indices (app a b) = app (file_result_indices a) (file_result_indices b).
Proof.
  induction a as [|m a IH]; cbn; [reflexivity|].
  destruct m; cbn; rewrite ?IH; reflexivity.
Qed.

Lemma file_messages_shape index r :
  existsb is_done (file_messages index r) = false /\
  file_result_indices (file_messages index r) = [index] /\
  Forall message_wf (file_messages index r).
Proof.
  destruct r as [[o|]|e]; cbn; repeat split; repeat constructor.
Qed.

Lemma run_unlock_from_shape w files : forall fs index,
  exists msgs,
    run_unlock_from w fs index files = app msgs [Done] /\
    existsb is_done msgs = false /\
    file_result_indices msgs = seq index (length files) /\
    Forall message_wf msgs.
Proof.
  induction files as [|e files IH]; intros fs index; cbn.
  - exists []. repeat split. constructor.
  - destruct (unlock_pdf w fs (path e)) as [r fs'].
    destruct (IH fs' (S index)) as (msgs & E & D & I & F).
    destruct (file_messages_shape index r) as (D0 & I0 & F0).
    exists (app (file_messages index r) msgs). rewrite E, app_assoc.
    repeat split.
    + rewrite existsb_app, D0, D. reflexivity.
    + rewrite file_result_indices_app, I0, I. reflexivity.
    + apply Forall_app. split; assumption.
Qed.

(** X1: the worker sends one [FileResult] per snapshot entry, with indices
    0, 1, ..., n-1 in that order, and then [Done], exactly once and last. *)
Theorem run_unlock_message_order w files :
  exists msgs,
    run_unlock w files = app msgs [Done] /\
    existsb is_done msgs = false /\
    file_result_indices msgs = seq 0 (length files).
Proof.
  destruct (run_unlock_from_shape w files (fs_initial w) 0) as (msgs & E & D & I & _).
  exists msgs. auto.
Qed.

(** X2: every [FileResult] the worker sends reports success exactly when it
    carries an output path. *)
Theorem run_unlock_success_iff_path w files :
  Forall message_wf (run_unlock w files).
Proof.
  destruct (run_unlock_from_shape w files (fs_initial w) 0) as (msgs & E & _ & _ & F).
  unfold run_unlock. rewrite E. apply Forall_app. split; [exact F | repeat constructor].
Qed.

Lemma unique_output_loop_fresh fs dir base fuel : forall idx,
  fs (unique_output_loop fs dir base idx fuel) = false \/
  unique_output_loop fs dir base idx fuel = join dir (base ++ "_overflow.pdf").
Proof.
  induction fuel as [|fuel IH]; intros idx; cbn [unique_output_loop]; [right; reflexivity|].
  destruct (fs (join dir (base ++ "_" ++ usize_to_string idx ++ ".pdf"))) eqn:E; cbn;
    [apply IH | left; exact E].
Qed.

(** X3: the output path chosen for a file never names an existing file,
    except the overflow fallback [<stem>_unlocked_overflow.pdf]. *)
Theorem unique_output_path_fresh fs dir stem :
  fs (unique_output_path fs dir stem) = false \/
  unique_output_path fs dir stem = join dir (stem ++ "_unlocked_overflow.pdf").
Proof.
  unfold unique_output_path.
  destruct (fs (join dir ((stem ++ "_unlocked") ++ ".pdf"))) eqn:E; cbn [negb];
    [|left; exact E].
  destruct (unique_output_loop_fresh fs dir (stem ++ "_unlocked") 9999 1) as [F|F];
    [left; exact F | right; rewrite F, string_append_assoc; reflexivity].
Qed.


(* ================================================================== *)
(** ** Further properties of the message pump                         *)

Lemma map_update_nth {A B : Type} (g : A -> B) (f : A -> A) (l : list A) :
  (forall x, g (f x) = g x) -> forall index, map g (update_nth f index l) = map g l.
Proof.
  intros Hf. induction l as [|x l IH]; intros [|i]; cbn; rewrite ?Hf, ?IH; reflexivity.
Qed.

Lemma apply_file_result_path w success op e :
  path (apply_file_result w success op e) = path e.
Proof. unfold apply_file_result. destruct success; reflexivity. Qed.

Lemma maybe_start_fields s :
  let t := maybe_start_success_animation s in
  frames t = frames s /\ file_entries t = file_entries s /\ unlock_rx t = unlock_rx s /\
  unlock_in_progress t = unlock_in_progress s /\ had_unlock t = had_unlock s /\
  unlock_work_done t = unlock_work_done s /\ qpdf_ok t = qpdf_ok s /\
  qpdf_prompted t = qpdf_prompted s.
Proof.
  unfold maybe_start_success_animation.
  destruct (unlock_ready_for_success s && unlock_work_done s); cbn;
    [|repeat split].
  destruct s; cbn. rendezvous_cases; cbn; repeat split.
Qed.

Lemma fold_handle_fields w msgs : forall s c,
  let r := fold_left (handle_message w) msgs (s, c) in
  snd r = c || existsb is_done msgs /\
  unlock_rx (fst r) = unlock_rx s /\
  map path (file_entries (fst r)) = map path (file_entries s) /\
  frames (fst r) = frames s /\ unlock_in_progress (fst r) = unlock_in_progress s /\
  qpdf_ok (fst r) = qpdf_ok s /\ qpdf_prompted (fst r) = qpdf_prompted s.
Proof.
  induction msgs as [|m msgs IH]; intros s c; cbn.
  - rewrite orb_false_r. repeat split.
  - destruct m as [index success op|info|].
    + destruct (IH (set_file_entries (update_nth (apply_file_result w success op) index
                  (file_entries s)) s) c) as (H1 & H2 & H3 & H4 & H5 & H6 & H7).
      rewrite H1, H2, H3, H4, H5, H6, H7. cbn.
      rewrite (map_update_nth path (apply_file_result w success op) (file_entries s)
                 (apply_file_result_path w success op)). repeat split.
    + destruct (is_empty (result_text s) || String.eqb (result_text s) "处理中...");
        match goal with |- context [fold_left _ msgs (?t, c)] =>
          destruct (IH t c) as (H1 & H2 & H3 & H4 & H5 & H6 & H7) end;
        rewrite H1, H2, H3, H4, H5, H6, H7; repeat split.
    + match goal with |- context [fold_left _ msgs (?t, true)] =>
        destruct (IH t true) as (H1 & H2 & H3 & H4 & H5 & H6 & H7) end.
      destruct (maybe_start_fields (set_had_unlock true (set_work_done true s)))
        as (F1 & F2 & F3 & F4 & _ & _ & F7 & F8).
      rewrite H1, H2, H3, H4, H5, H6, H7, F1, F2, F3, F4, F7, F8. cbn.
      rewrite orb_true_r. repeat split.
Qed.

(** X5: the receiver is dropped in the frame that receives [Done]; until
    then the UI keeps exactly the messages it has not received yet. *)
Theorem handle_unlock_messages_receiver w n s q :
  unlock_rx s = Some q ->
  unlock_rx (handle_unlock_messages w n s) =
  if existsb is_done (firstn n q) then None else Some (skipn n q).
Proof.
  intros Hq. unfold handle_unlock_messages. rewrite Hq.
  destruct (fold_handle_fields w (firstn n q) (set_unlock_rx None s) false)
    as (H1 & H2 & _).
  destruct (fold_left _ _ _) as [t c]. cbn in H1, H2. rewrite H1.
  destruct (existsb is_done (firstn n q)); cbn; [exact H2 | reflexivity].
Qed.

(** One file being unlocked; the first of its two messages arrives. *)
Lemma handle_unlock_messages_receiver_witness :
  let s := run_frames world_all_ok
             [frame false 0 [Some "/tmp/a.pdf"] false; frame false 0 [] true] app_ready in
  unlock_rx s = Some (run_unlock world_all_ok (file_entries s)) /\
  unlock_rx (handle_unlock_messages world_all_ok 1 s) = Some [Done].
Proof.
  cbv zeta.
  set (s := run_frames world_all_ok
             [frame false 0 [Some "/tmp/a.pdf"] false; frame false 0 [] true] app_ready).
  assert (Q : unlock_rx s = Some (run_unlock world_all_ok (file_entries s)))
    by (vm_compute; reflexivity).
  split; [exact Q|].
  rewrite (handle_unlock_messages_receiver world_all_ok 1 s _ Q).
  vm_compute. reflexivity.
Defined.

(** X6: receiving worker messages never adds, removes or reorders the
    entries of the list: only their status fields change. *)
Theorem handle_unlock_messages_keeps_paths w n s :
  map path (file_entries (handle_unlock_messages w n s)) = map path (file_entries s).
Proof.
  unfold handle_unlock_messages. destruct (unlock_rx s) as [q|]; [|reflexivity].
  destruct (fold_handle_fields w (firstn n q) (set_unlock_rx None s) false)
    as (_ & _ & H3 & _).
  destruct (fold_left _ _ _) as [t c]. cbn in H3.
  destruct c; [exact H3 | exact H3].
Qed.

(* ================================================================== *)
(** ** What each phase of a frame leaves alone                        *)

Lemma tick_fields due s :
  let t := tick_animation due s in
  frames t = frames s /\ file_entries t = file_entries s /\ unlock_rx t = unlock_rx s /\
  qpdf_ok t = qpdf_ok s /\ qpdf_prompted t = qpdf_prompted s /\
  (unlock_in_progress s = false -> unlock_in_progress t = false).
Proof.
  destruct s as [fr es [m fi ll] ip rd wd rt rx rv ok er vr wr hu pr].
  unfold tick_animation; cbn.
  destruct m; cbn; [repeat split; auto| ..]; rendezvous_cases; cbn;
    try (repeat split; auto; fail);
    match goal with |- context [maybe_start_success_animation ?t] =>
      destruct (maybe_start_fields t) as (F1 & F2 & F3 & F4 & _ & _ & F7 & F8);
      rewrite F1, F2, F3, F4, F7, F8; cbn; repeat split; auto end.
Qed.

Lemma handle_fields w n s :
  let t := handle_unlock_messages w n s in
  frames t = frames s /\ map path (file_entries t) = map path (file_entries s) /\
  unlock_in_progress t = unlock_in_progress s /\ qpdf_ok t = qpdf_ok s /\
  qpdf_prompted t = qpdf_prompted s /\ (unlock_rx s = None -> unlock_rx t = None).
Proof.
  unfold handle_unlock_messages. destruct (unlock_rx s) as [q|] eqn:Q;
    [|repeat split; auto].
  destruct (fold_handle_fields w (firstn n q) (set_unlock_rx None s) false)
    as (_ & H2 & H3 & H4 & H5 & H6 & H7).
  destruct (fold_left _ _ _) as [t c]; cbn in *.
  destruct c; cbn; repeat split; try assumption; intros E; discriminate E.
Qed.

Lemma add_files_fields w paths s :
  let t := add_files w paths s in
  frames t = frames s /\
  file_entries t = fst (add_paths w paths (if had_unlock s then [] else file_entries s) false) /\
  unlock_rx t = unlock_rx s /\ unlock_in_progress t = unlock_in_progress s /\
  qpdf_ok t = qpdf_ok s /\ qpdf_prompted t = qpdf_prompted s.
Proof.
  unfold add_files. destruct (had_unlock s); cbn;
    destruct (add_paths _ _ _ _) as [es added]; destruct added; cbn; repeat split.
Qed.

Lemma set_mode_fields m s :
  let t := set_mode m s in
  frames t = frames s /\ file_entries t = file_entries s /\ unlock_rx t = unlock_rx s /\
  unlock_in_progress t = unlock_in_progress s /\ qpdf_ok t = qpdf_ok s /\
  qpdf_prompted t = qpdf_prompted s.
Proof. unfold set_mode. destruct (mode_eqb _ _); cbn; repeat split. Qed.

Lemma start_unlock_fields w s :
  let t := start_unlock w s in
  frames t = frames s /\ file_entries t = file_entries s /\
  qpdf_ok t = qpdf_ok s /\ qpdf_prompted t = qpdf_prompted s.
Proof. unfold start_unlock. destruct (_ || _); cbn; repeat split. Qed.

Lemma drop_files_fields w d s :
  let t := drop_files w d s in
  frames t = frames s /\ unlock_rx t = unlock_rx s /\
  unlock_in_progress t = unlock_in_progress s /\ qpdf_ok t = qpdf_ok s /\
  qpdf_prompted t = qpdf_prompted s /\
  (file_entries t = file_entries s \/
   exists paths, file_entries t = file_entries (add_files w paths s)).
Proof.
  unfold drop_files. destruct d as [|o d]; [repeat split; auto|].
  set (paths := flat_map _ _).
  destruct (add_files_fields w paths s) as (A1 & _ & A3 & A4 & A5 & A6).
  destruct (file_entries (add_files w paths s)) eqn:E.
  - repeat split; auto; try (right; exists paths; first [reflexivity | exact E | symmetry; exact E]).
  - destruct (set_mode_fields HappyLoop (add_files w paths s)) as (S1 & S2 & S3 & S4 & S5 & S6).
    unfold start_happy_loop. rewrite S1, S2, S3, S4, S5, S6, A1, A3, A4, A5, A6.
    repeat split; auto; try (right; exists paths; first [reflexivity | exact E | symmetry; exact E]).
Qed.

Lemma hover_fields h s :
  let t := hover_mascot h s in
  frames t = frames s /\ file_entries t = file_entries s /\ unlock_rx t = unlock_rx s /\
  unlock_in_progress t = unlock_in_progress s /\ qpdf_ok t = qpdf_ok s /\
  qpdf_prompted t = qpdf_prompted s.
Proof.
  unfold hover_mascot, start_happy_loop.
  destruct (_ && _); [|repeat split].
  destruct h; [apply set_mode_fields|].
  destruct (negb _); [apply set_mode_fields | repeat split].
Qed.

Lemma click_fields w picked s :
  let t := click_mascot w picked s in
  frames t = frames s /\ qpdf_ok t = qpdf_ok s /\ qpdf_prompted t = qpdf_prompted s /\
  (file_entries t = file_entries s \/
   exists paths, file_entries t = file_entries (add_files w paths s)) /\
  (qpdf_ok s = false -> unlock_rx t = unlock_rx s /\
                        unlock_in_progress t = unlock_in_progress s).
Proof.
  unfold click_mascot. destruct (file_entries s) as [|e es] eqn:E.
  - destruct picked as [paths|]; [|repeat split; auto].
    destruct (add_files_fields w paths s) as (A1 & _ & A3 & A4 & A5 & A6).
    destruct (file_entries (add_files w paths s)) eqn:E'.
    + repeat split; auto; try (right; exists paths; first [reflexivity | exact E' | symmetry; exact E']).
    + destruct (set_mode_fields HappyLoop (add_files w paths s))
        as (S1 & S2 & S3 & S4 & S5 & S6).
      unfold start_happy_loop. rewrite S1, S2, S3, S4, S5, S6, A1, A3, A4, A5, A6.
      repeat split; auto; try (right; exists paths; first [reflexivity | exact E' | symmetry; exact E']).
  - destruct (qpdf_ok s) eqn:Q; cbn.
    + destruct (start_unlock_fields w s) as (U1 & U2 & U3 & U4).
      rewrite U1, U2, U3, U4, Q, E. repeat split; auto; congruence.
    + destruct (qpdf_error s); cbn; rewrite ?Q, ?E; repeat split; auto.
Qed.

Lemma prompt_fields s :
  let t := prompt_qpdf s in
  frames t = frames s /\ file_entries t = file_entries s /\ unlock_rx t = unlock_rx s /\
  unlock_in_progress t = unlock_in_progress s /\ qpdf_ok t = qpdf_ok s /\
  qpdf_prompted t = qpdf_prompted s || negb (qpdf_ok s).
Proof.
  unfold prompt_qpdf. destruct (qpdf_ok s) eqn:O, (qpdf_prompted s) eqn:P; cbn;
    rewrite ?O, ?P; repeat split.
Qed.

Lemma distinct_paths_snoc l x :
  distinct_paths l -> Forall (fun q => path_eqb q x = false) l ->
  distinct_paths (app l [x]).
Proof.
  induction l as [|p l IH]; cbn; intros D F.
  - split; [constructor | exact I].
  - destruct D as [Dp Dl]. inversion F as [|? ? Fp Fl]; subst.
    split; [apply Forall_app; split; [exact Dp | constructor; [exact Fp | constructor]]|].
    apply IH; assumption.
Qed.

Lemma entries_ok_map es es' :
  map path es' = map path es -> entries_ok es -> entries_ok es'.
Proof. unfold entries_ok. intros ->. exact (fun H => H). Qed.

Lemma new_entry_path w p : path (new_entry w p) = p.
Proof. unfold new_entry. destruct (detect_encrypted _) as [[|]|]; reflexivity. Qed.

Lemma add_paths_ok w ps : forall es added,
  entries_ok es -> entries_ok (fst (add_paths w ps es added)).
Proof.
  induction ps as [|p ps IH]; intros es added H; cbn; [exact H|].
  destruct (is_pdf p) eqn:P; cbn; [|apply IH, H].
  destruct (existsb (fun f => path_eqb (path f) p) es) eqn:X; [apply IH, H|].
  apply IH. destruct H as [Hp Hd]. unfold entries_ok. rewrite map_app. cbn.
  rewrite new_entry_path. split.
  - apply Forall_app. split; [exact Hp | constructor; [exact P | constructor]].
  - apply distinct_paths_snoc; [exact Hd|].
    apply Forall_forall. intros q Hq. apply in_map_iff in Hq as (f & <- & Hf).
    destruct (path_eqb (path f) p) eqn:Q; [|reflexivity].
    assert (existsb (fun f => path_eqb (path f) p) es = true) as Y
      by (apply existsb_exists; exists f; auto).
    congruence.
Qed.

Lemma add_files_ok w paths s :
  entries_ok (file_entries s) -> entries_ok (file_entries (add_files w paths s)).
Proof.
  intros H. destruct (add_files_fields w paths s) as (_ & E & _).
  rewrite E. apply add_paths_ok.
  destruct (had_unlock s); [split; [constructor | exact I] | exact H].
Qed.

(** X7: across a UI frame the file list only ever holds PDF paths, and no
    path twice (dropping, picking and worker messages included). *)
Theorem update_keeps_entries_ok w inp s :
  entries_ok (file_entries s) -> entries_ok (file_entries (update w inp s)).
Proof.
  intros H. unfold update.
  set (s1 := tick_animation (tick_due inp) s).
  assert (H1 : entries_ok (file_entries s1))
    by (destruct (tick_fields (tick_due inp) s) as (_ & E & _); unfold s1; rewrite E; exact H).
  set (s2 := handle_unlock_messages w (received inp) s1).
  assert (H2 : entries_ok (file_entries s2))
    by (destruct (handle_fields w (received inp) s1) as (_ & E & _);
        exact (entries_ok_map _ _ E H1)).
  set (s3 := drop_files w (dropped inp) s2).
  assert (H3 : entries_ok (file_entries s3)).
  { destruct (drop_files_fields w (dropped inp) s2) as (_ & _ & _ & _ & _ & [E|[ps E]]);
      unfold s3; rewrite E; [exact H2 | apply add_files_ok, H2]. }
  set (s4 := hover_mascot (hovered inp) s3).
  assert (H4 : entries_ok (file_entries s4))
    by (destruct (hover_fields (hovered inp) s3) as (_ & E & _); unfold s4; rewrite E; exact H3).
  set (s5 := if clicked inp then click_mascot w (picked inp) s4 else s4).
  assert (H5 : entries_ok (file_entries s5)).
  { unfold s5. destruct (clicked inp); [|exact H4].
    destruct (click_fields w (picked inp) s4) as (_ & _ & _ & [E|[ps E]] & _);
      rewrite E; [exact H4 | apply add_files_ok, H4]. }
  destruct (prompt_fields s5) as (_ & E & _). rewrite E. exact H5.
Qed.

Lemma update_keeps_entries_ok_witness :
  entries_ok (file_entries (run_frames world_all_ok [frame false 0 [Some "/tmp/a.pdf"] false] app_ready)) /\
  entries_ok (file_entries (update world_all_ok
     (frame false 0 [Some "/tmp/a.pdf"; Some "/tmp/a.pdf"; Some "/tmp/b.txt"] false)
     (run_frames world_all_ok [frame false 0 [Some "/tmp/a.pdf"] false] app_ready))).
Proof.
  assert (H : entries_ok (file_entries (run_frames world_all_ok
                [frame false 0 [Some "/tmp/a.pdf"] false] app_ready))).
  { vm_compute. split; [repeat constructor | split; [constructor | exact I]]. }
  split; [exact H | exact (update_keeps_entries_ok _ _ _ H)].
Defined.

Lemma update_fields w inp s :
  let t := update w inp s in
  frames t = frames s /\ qpdf_ok t = qpdf_ok s /\
  qpdf_prompted t = qpdf_prompted s || negb (qpdf_ok s) /\
  (qpdf_ok s = false -> unlock_rx s = None -> unlock_in_progress s = false ->
   unlock_rx t = None /\ unlock_in_progress t = false).
Proof.
  unfold update.
  destruct (tick_fields (tick_due inp) s) as (T1 & _ & T3 & T4 & T5 & T6).
  set (s1 := tick_animation (tick_due inp) s) in *.
  destruct (handle_fields w (received inp) s1) as (H1 & _ & H3 & H4 & H5 & H6).
  set (s2 := handle_unlock_messages w (received inp) s1) in *.
  destruct (drop_files_fields w (dropped inp) s2) as (D1 & D2 & D3 & D4 & D5 & _).
  set (s3 := drop_files w (dropped inp) s2) in *.
  destruct (hover_fields (hovered inp) s3) as (V1 & _ & V3 & V4 & V5 & V6).
  set (s4 := hover_mascot (hovered inp) s3) in *.
  assert (C : frames (if clicked inp then click_mascot w (picked inp) s4 else s4) = frames s4 /\
              qpdf_ok (if clicked inp then click_mascot w (picked inp) s4 else s4) = qpdf_ok s4 /\
              qpdf_prompted (if clicked inp then click_mascot w (picked inp) s4 else s4) =
                qpdf_prompted s4 /\
              (qpdf_ok s4 = false ->
               unlock_rx (if clicked inp then click_mascot w (picked inp) s4 else s4) = unlock_rx s4 /\
               unlock_in_progress (if clicked inp then click_mascot w (picked inp) s4 else s4) =
                 unlock_in_progress s4)).
  { destruct (clicked inp); [|repeat split; auto].
    destruct (click_fields w (picked inp) s4) as (C1 & C2 & C3 & _ & C5). auto. }
  destruct C as (C1 & C2 & C3 & C5).
  set (s5 := if clicked inp then click_mascot w (picked inp) s4 else s4) in *.
  destruct (prompt_fields s5) as (P1 & _ & P3 & P4 & P5 & P6).
  rewrite P1, P5, P6, C1, C2, C3, V1, V5, V6, D1, D4, D5, H1, H4, H5, T1, T4, T5.
  split; [reflexivity|]. split; [reflexivity|]. split; [reflexivity|].
  intros O R I.
  assert (O4 : qpdf_ok s4 = false) by congruence.
  destruct (C5 O4) as [R5 I5]. rewrite P3, P4, R5, I5, V3, V4, D2, D3, H3.
  split; [apply H6; congruence | apply T6, I].
Qed.

(** X8: without a working qpdf no unlock ever starts: however many frames
    run, with whatever drops, clicks and hovers, the app never gets a
    worker receiver and never marks an unlock in progress. *)
Theorem no_qpdf_never_unlocks w inputs s :
  qpdf_ok s = false -> unlock_rx s = None -> unlock_in_progress s = false ->
  unlock_rx (run_frames w inputs s) = None /\
  unlock_in_progress (run_frames w inputs s) = false.
Proof.
  revert s. induction inputs as [|inp inputs IH]; intros s O R I; cbn; [auto|].
  destruct (update_fields w inp s) as (_ & O' & _ & K).
  destruct (K O R I) as [R' I'].
  apply IH; [congruence | exact R' | exact I'].
Qed.

(** A missing qpdf at startup; the user drops a PDF and clicks. *)
Lemma no_qpdf_never_unlocks_witness :
  let s := new (check_qpdf_ready (IoErr "not found")) in
  qpdf_ok s = false /\ unlock_rx s = None /\ unlock_in_progress s = false /\
  unlock_rx (run_frames world_all_ok
    [frame false 0 [Some "/tmp/a.pdf"] false; frame true 0 [] true; frame true 3 [] true] s) = None.
Proof.
  cbv zeta.
  assert (O : qpdf_ok (new (check_qpdf_ready (IoErr "not found"))) = false) by (vm_compute; reflexivity).
  assert (R : unlock_rx (new (check_qpdf_ready (IoErr "not found"))) = None) by (vm_compute; reflexivity).
  assert (I : unlock_in_progress (new (check_qpdf_ready (IoErr "not found"))) = false)
    by (vm_compute; reflexivity).
  split; [exact O|]. split; [exact R|]. split; [exact I|].
  exact (proj1 (no_qpdf_never_unlocks world_all_ok
    [frame false 0 [Some "/tmp/a.pdf"] false; frame true 0 [] true; frame true 3 [] true] _ O R I)).
Defined.

(* ================================================================== *)
(** ** A reported success always carries its output path              *)

Lemma Forall_update_nth {A : Type} (P : A -> Prop) (f : A -> A) (l : list A) :
  (forall x, P x -> P (f x)) -> Forall P l -> forall index, Forall P (update_nth f index l).
Proof.
  intros Hf H. induction H as [|x l Px Pl IH]; intros [|i]; cbn;
    constructor; auto.
Qed.

Lemma Forall_firstn_skipn {A : Type} (P : A -> Prop) (l : list A) : forall n,
  Forall P l -> Forall P (firstn n l) /\ Forall P (skipn n l).
Proof.
  induction l as [|x l IH]; intros [|n] H; cbn; auto.
  inversion H as [|? ? Px Pl]; subst. destruct (IH n Pl).
  split; [constructor|]; auto.
Qed.

Lemma new_entry_result w p : unlock_result (new_entry w p) = None.
Proof. unfold new_entry. destruct (detect_encrypted _) as [[|]|]; reflexivity. Qed.

Lemma add_paths_Forall (P : FileEntry -> Prop) w ps :
  (forall p, P (new_entry w p)) ->
  forall es added, Forall P es -> Forall P (fst (add_paths w ps es added)).
Proof.
  intros Hn. induction ps as [|p ps IH]; intros es added H; cbn; [exact H|].
  destruct (is_pdf p); cbn; [|apply IH, H].
  destruct (existsb _ es); apply IH; [exact H|].
  apply Forall_app. split; [exact H | constructor; [apply Hn | constructor]].
Qed.

Lemma apply_file_result_ok w index success op e :
  message_wf (FileResult index success op) ->
  success_has_output (apply_file_result w success op e).
Proof.
  cbn. intros Hwf. unfold apply_file_result, success_has_output.
  destruct success; cbn; [|intros H; discriminate H].
  intros _. destruct op; [discriminate | discriminate Hwf].
Qed.

Lemma fold_outputs_ok w msgs : forall sc,
  Forall message_wf msgs ->
  Forall success_has_output (file_entries (fst sc)) ->
  Forall success_has_output (file_entries (fst (fold_left (handle_message w) msgs sc))).
Proof.
  induction msgs as [|m msgs IH]; intros [s c] Hm He; cbn; [exact He|].
  inversion Hm as [|? ? Hm0 Hms]; subst.
  apply IH; [exact Hms|].
  destruct m as [index success op|info|]; cbn.
  - apply Forall_update_nth; [|exact He].
    intros e _. exact (apply_file_result_ok w index success op e Hm0).
  - destruct (_ || _); exact He.
  - destruct (maybe_start_fields (set_had_unlock true (set_work_done true s)))
      as (_ & F2 & _). rewrite F2. exact He.
Qed.

Lemma outputs_ok_same s t :
  file_entries t = file_entries s -> unlock_rx t = unlock_rx s ->
  outputs_ok s -> outputs_ok t.
Proof. unfold outputs_ok. intros -> ->. exact (fun H => H). Qed.

Lemma add_files_outputs w paths s :
  Forall success_has_output (file_entries s) ->
  Forall success_has_output (file_entries (add_files w paths s)).
Proof.
  intros H. destruct (add_files_fields w paths s) as (_ & E & _). rewrite E.
  apply add_paths_Forall.
  - intros p. unfold success_has_output. rewrite new_entry_result. discriminate.
  - destruct (had_unlock s); [constructor | exact H].
Qed.

Lemma handle_outputs_ok w n s :
  outputs_ok s -> outputs_ok (handle_unlock_messages w n s).
Proof.
  intros [He Hq]. unfold handle_unlock_messages.
  destruct (unlock_rx s) as [q|] eqn:Q; [|split; [exact He | rewrite Q; exact Hq]].
  destruct (Forall_firstn_skipn message_wf q n (Hq q eq_refl)) as [F S].
  pose proof (fold_outputs_ok w (firstn n q) (set_unlock_rx None s, false) F He) as Ho.
  destruct (fold_handle_fields w (firstn n q) (set_unlock_rx None s) false)
    as (_ & R & _).
  destruct (fold_left _ _ _) as [t c]; cbn in Ho, R.
  destruct c; cbn; (split; [exact Ho|]); intros q' Hq'.
  - rewrite R in Hq'. discriminate Hq'.
  - injection Hq' as <-. exact S.
Qed.

Lemma run_unlock_wf w files : Forall message_wf (run_unlock w files).
Proof.
  destruct (run_unlock_from_shape w files (fs_initial w) 0) as (msgs & E & _ & _ & F).
  unfold run_unlock. rewrite E. apply Forall_app. split; [exact F | repeat constructor].
Qed.

Lemma click_outputs_ok w picked s :
  outputs_ok s -> outputs_ok (click_mascot w picked s).
Proof.
  intros [He Hq]. unfold click_mascot. destruct (file_entries s) as [|e es] eqn:E.
  - destruct picked as [paths|]; [|split; [rewrite E; exact He | exact Hq]].
    destruct (add_files_fields w paths s) as (_ & _ & A3 & _).
    pose proof (add_files_outputs w paths s ltac:(rewrite E; exact He)) as Ha.
    assert (K : outputs_ok (add_files w paths s))
      by (split; [exact Ha | rewrite A3; exact Hq]).
    destruct (file_entries (add_files w paths s)); [exact K|].
    destruct (set_mode_fields HappyLoop (add_files w paths s)) as (_ & S2 & S3 & _).
    exact (outputs_ok_same _ _ S2 S3 K).
  - destruct (qpdf_ok s).
    + unfold start_unlock. rewrite E. destruct (unlock_in_progress s); cbn;
        [split; [change (Forall success_has_output (file_entries s)); rewrite E; exact He
                | exact Hq]|].
      split; [change (Forall success_has_output (file_entries s)); rewrite E; exact He|].
      intros q Q. injection Q as <-.
      apply run_unlock_wf.
    + destruct (qpdf_error s);
        (split; [change (Forall success_has_output (file_entries s)); rewrite E; exact He
                | exact Hq]).
Qed.

(** X10: an entry marked as unlocked always has an output path to open,
    and every message still pending in the receiver pairs success with a
    path; both hold across any UI frame. *)
Theorem update_keeps_outputs_ok w inp s :
  outputs_ok s -> outputs_ok (update w inp s).
Proof.
  intros H. unfold update.
  destruct (tick_fields (tick_due inp) s) as (_ & T2 & T3 & _).
  pose proof (outputs_ok_same _ _ T2 T3 H) as H1.
  pose proof (handle_outputs_ok w (received inp) _ H1) as H2.
  set (s2 := handle_unlock_messages w (received inp) _) in *.
  assert (H3 : outputs_ok (drop_files w (dropped inp) s2)).
  { destruct (drop_files_fields w (dropped inp) s2) as (_ & D2 & _ & _ & _ & [E|[ps E]]).
    - exact (outputs_ok_same _ _ E D2 H2).
    - split; [rewrite E; apply add_files_outputs, H2|]. rewrite D2. apply H2. }
  destruct (hover_fields (hovered inp) (drop_files w (dropped inp) s2)) as (_ & V2 & V3 & _).
  pose proof (outputs_ok_same _ _ V2 V3 H3) as H4.
  set (s4 := hover_mascot _ _) in *.
  assert (H5 : outputs_ok (if clicked inp then click_mascot w (picked inp) s4 else s4))
    by (destruct (clicked inp); [apply click_outputs_ok, H4 | exact H4]).
  destruct (prompt_fields (if clicked inp then click_mascot w (picked inp) s4 else s4))
    as (_ & P2 & P3 & _).
  exact (outputs_ok_same _ _ P2 P3 H5).
Qed.

Lemma update_keeps_outputs_ok_witness :
  outputs_ok app_ready /\
  outputs_ok (update world_all_ok (frame false 0 [Some "/tmp/a.pdf"] true) app_ready).
Proof.
  assert (H : outputs_ok app_ready)
    by (vm_compute; split; [constructor | intros q Q; discriminate Q]).
  split; [exact H | exact (update_keeps_outputs_ok _ _ _ H)].
Defined.

(* ================================================================== *)
(** ** A complete unlock session                                      *)

Lemma update_nth_length {A : Type} (f : A -> A) (l : list A) : forall index,
  length (update_nth f index l) = length l.
Proof. induction l as [|x l IH]; intros [|i]; cbn; rewrite ?IH; reflexivity. Qed.

Lemma update_nth_nth_error_other {A : Type} (f : A -> A) (l : list A) : forall index i,
  i <> index -> nth_error (update_nth f index l) i = nth_error l i.
Proof.
  induction l as [|x l IH]; intros [|index] [|i] H; cbn; try reflexivity.
  - contradiction.
  - apply IH. lia.
Qed.

Lemma apply_file_result_result w success op e :
  unlock_result (apply_file_result w success op e) = Some success.
Proof. unfold apply_file_result. destruct success; reflexivity. Qed.

Lemma run_unlock_from_length w files : forall fs index,
  length (run_unlock_from w fs index files) <= 2 * length files + 1.
Proof.
  induction files as [|e files IH]; intros fs index; cbn; [lia|].
  destruct (unlock_pdf w fs (path e)) as [r fs'].
  rewrite length_app. specialize (IH fs' (S index)).
  destruct r; cbn; lia.
Qed.

Lemma fold_results w msgs : forall sc i,
  (In i (file_result_indices msgs) /\ i < length (file_entries (fst sc))) \/
  (exists e, nth_error (file_entries (fst sc)) i = Some e /\ unlock_result e <> None) ->
  exists e, nth_error (file_entries (fst (fold_left (handle_message w) msgs sc))) i = Some e /\
            unlock_result e <> None.
Proof.
  induction msgs as [|m msgs IH]; intros [s c] i H; cbn in *.
  - destruct H as [[[] _]|H]; exact H.
  - apply IH. destruct m as [index success op|info|]; cbn in *.
    + rewrite update_nth_length.
      destruct (Nat.eq_dec i index) as [->|Ne].
      * destruct H as [[_ L]|(e & Hn & _)].
        -- destruct (nth_error (file_entries s) index) as [x|] eqn:N.
           ++ right. exists (apply_file_result w success op x).
              rewrite (update_nth_nth_error _ _ _ _ N), apply_file_result_result.
              split; [reflexivity | discriminate].
           ++ apply nth_error_None in N. lia.
        -- right. exists (apply_file_result w success op e).
           rewrite (update_nth_nth_error _ _ _ _ Hn), apply_file_result_result.
           split; [reflexivity | discriminate].
      * rewrite update_nth_nth_error_other by exact Ne.
        destruct H as [[[E|I] L]|H]; [congruence | left; auto | right; exact H].
    + destruct (_ || _); cbn; exact H.
    + destruct (maybe_start_fields (set_had_unlock true (set_work_done true s)))
        as (_ & F2 & _). rewrite F2. cbn. exact H.
Qed.

(** X11: once every message of a run has arrived (at most two per file and
    [Done]), the receiver is gone, the work is marked done and the session
    marked as had, the list still holds the same files in the same order,
    and every one of them has an unlock result. *)
Theorem start_unlock_then_all_received w s n :
  unlock_in_progress s = false -> file_entries s <> [] ->
  2 * length (file_entries s) + 1 <= n ->
  let t := handle_unlock_messages w n (start_unlock w s) in
  unlock_rx t = None /\ unlock_work_done t = true /\ had_unlock t = true /\
  map path (file_entries t) = map path (file_entries s) /\
  Forall (fun e => unlock_result e <> None) (file_entries t).
Proof.
  intros I Ne L. cbv zeta.
  destruct (run_unlock_from_shape w (file_entries s) (fs_initial w) 0)
    as (msgs & Q & _ & Ix & _).
  pose proof (run_unlock_from_length w (file_entries s) (fs_initial w) 0) as Lq.
  unfold start_unlock. rewrite I.
  destruct (file_entries s) as [|e0 es0] eqn:Es; [contradiction|]. cbn [orb].
  rewrite <- Es in *. clear Ne.
  set (s0 := start_peck _).
  unfold handle_unlock_messages. cbn [unlock_rx set_unlock_rx].
  fold (run_unlock w (file_entries s0)). change (file_entries s0) with (file_entries s).
  unfold run_unlock. rewrite Q in *.
  rewrite firstn_all2 by lia.
  rewrite fold_left_app. cbn [fold_left].
  set (u0 := set_unlock_rx None _).
  destruct (fold_handle_fields w msgs u0 false) as (_ & R & P & _).
  pose proof (fold_results w msgs (u0, false)) as Res.
  destruct (fold_left (handle_message w) msgs (u0, false)) as [u c] eqn:U.
  cbn [fst snd] in R, P, Res. cbn [handle_message].
  destruct (maybe_start_fields (set_had_unlock true (set_work_done true u)))
    as (_ & F2 & F3 & _ & F5 & F6 & _).
  rewrite F2, F3, F5, F6. cbn.
  assert (Pu : map path (file_entries u) = map path (file_entries s)) by exact P.
  repeat split; [exact R | exact Pu|].
  apply Forall_forall. intros x Hx.
  destruct (In_nth_error _ _ Hx) as [i Hi].
  assert (Li : i < length (file_entries s)).
  { rewrite <- (length_map path (file_entries s)), <- Pu, length_map.
    apply nth_error_Some. rewrite Hi. discriminate. }
  destruct (Res i) as (e & He & Hr).
  - left. rewrite Ix, in_seq. split; [lia|]. cbn. exact Li.
  - rewrite He in Hi. injection Hi as <-. exact Hr.
Qed.

(** Two files with everything in place; all five messages in one frame. *)
Lemma start_unlock_then_all_received_witness :
  let s := run_frames world_all_ok [frame false 0 [Some "/tmp/a.pdf"; Some "/tmp/b.pdf"] false]
             app_ready in
  unlock_in_progress s = false /\ file_entries s <> [] /\
  2 * length (file_entries s) + 1 <= 5 /\
  unlock_rx (handle_unlock_messages world_all_ok 5 (start_unlock world_all_ok s)) = None.
Proof.
  cbv zeta.
  assert (I : unlock_in_progress (run_frames world_all_ok
                [frame false 0 [Some "/tmp/a.pdf"; Some "/tmp/b.pdf"] false] app_ready) = false)
    by (vm_compute; reflexivity).
  assert (N : file_entries (run_frames world_all_ok
                [frame false 0 [Some "/tmp/a.pdf"; Some "/tmp/b.pdf"] false] app_ready) <> [])
    by (vm_compute; discriminate).
  assert (L : 2 * length (file_entries (run_frames world_all_ok
                [frame false 0 [Some "/tmp/a.pdf"; Some "/tmp/b.pdf"] false] app_ready)) + 1 <= 5)
    by (vm_compute; lia).
  split; [exact I|]. split; [exact N|]. split; [exact L|].
  exact (proj1 (start_unlock_then_all_received world_all_ok _ 5 I N L)).
Defined.

(* ================================================================== *)
(** ** Animation timing                                               *)

Lemma set_animation_twice a b s : set_animation a (set_animation b s) = set_animation a s.
Proof. destruct s; reflexivity. Qed.

Lemma set_animation_same s : set_animation (animation s) s = s.
Proof. destruct s; reflexivity. Qed.

Lemma ticks_add a b s : ticks (a + b) s = ticks a (ticks b s).
Proof. induction a as [|a IH]; cbn; [reflexivity | rewrite IH; reflexivity]. Qed.

Lemma tick_mode_step m s fi ll n :
  m <> Logo -> mode_frame_count m s = n -> S fi < n ->
  tick_animation true (set_animation (mkAnimationState m fi ll) s) =
  set_animation (mkAnimationState m (S fi) ll) s.
Proof.
  intros Hl Hn Hf.
  destruct s as [fr es a ip rd wd rt rx rv ok er vr wr hu pr].
  unfold tick_animation. destruct m; [contradiction| | |]; cbn in Hn |- *;
    [| |destruct rv]; rewrite Hn, (Nat.mod_small (S fi) n Hf);
    (destruct (Nat.eqb_spec n 0); [lia|]); reflexivity.
Qed.

Lemma ticks_mode_inner m s fi ll n :
  m <> Logo -> mode_frame_count m s = n ->
  forall j, fi + j < n ->
  ticks j (set_animation (mkAnimationState m fi ll) s) =
  set_animation (mkAnimationState m (fi + j) ll) s.
Proof.
  intros Hl Hn. induction j as [|j IH]; intros Hj; cbn.
  - rewrite Nat.add_0_r. reflexivity.
  - rewrite IH by lia. rewrite (tick_mode_step m s (fi + j) ll n Hl Hn ltac:(lia)).
    rewrite Nat.add_succ_r. reflexivity.
Qed.

Lemma tick_peck_wrap s fi ll n :
  mode_frame_count Peck s = n -> S fi = n ->
  tick_animation true (set_animation (mkAnimationState Peck fi (S (S ll))) s) =
  set_animation (mkAnimationState Peck 0 (S ll)) s.
Proof.
  intros Hn Hf.
  destruct s as [fr es a ip rd wd rt rx rv ok er vr wr hu pr].
  unfold tick_animation. cbn in Hn |- *. rewrite Hn, Hf, Nat.Div0.mod_same.
  destruct (Nat.eqb_spec n 0); [lia|]. cbn.
  reflexivity.
Qed.

Lemma tick_peck_last s fi n :
  mode_frame_count Peck s = n -> S fi = n ->
  tick_animation true (set_animation (mkAnimationState Peck fi 1) s) =
  maybe_start_success_animation
    (set_mode Logo (set_ready_for_success true (set_animation (mkAnimationState Peck 0 0) s))).
Proof.
  intros Hn Hf.
  destruct s as [fr es a ip rd wd rt rx rv ok er vr wr hu pr].
  unfold tick_animation. cbn in Hn |- *. rewrite Hn, Hf, Nat.Div0.mod_same.
  destruct (Nat.eqb_spec n 0); [lia|]. cbn.
  reflexivity.
Qed.

Lemma set_mode_logo_peck s :
  set_mode Logo (set_ready_for_success true (set_animation (mkAnimationState Peck 0 0) s)) =
  set_ready_for_success true (set_animation (mkAnimationState Logo 0 0) s).
Proof. destruct s; reflexivity. Qed.

(** X12: [start_peck] plays the peck frames exactly twice: the first loop
    with two loops left, the second with one, and at the end of the second
    loop (and not before) the UI records that Peck is done, switches to
    Logo and checks whether the worker has finished. *)
Theorem peck_plays_two_loops s n :
  animation s = mkAnimationState Peck 0 2 ->
  mode_frame_count Peck s = n -> 1 <= n ->
  (forall k, k < n -> ticks k s = set_animation (mkAnimationState Peck k 2) s) /\
  (forall k, k < n -> ticks (n + k) s = set_animation (mkAnimationState Peck k 1) s) /\
  ticks (2 * n) s =
  maybe_start_success_animation
    (set_ready_for_success true (set_animation (mkAnimationState Logo 0 0) s)).
Proof.
  intros Ha Hn H1.
  assert (S0 : s = set_animation (mkAnimationState Peck 0 2) s)
    by (rewrite <- Ha; symmetry; apply set_animation_same).
  assert (A : forall k, k < n -> ticks k s = set_animation (mkAnimationState Peck k 2) s).
  { intros k Hk. rewrite S0 at 1.
    exact (ticks_mode_inner Peck s 0 2 n ltac:(discriminate) Hn k Hk). }
  assert (W1 : ticks n s = set_animation (mkAnimationState Peck 0 1) s).
  { replace n with (1 + (n - 1)) at 1 by lia. rewrite ticks_add, A by lia. cbn [ticks].
    apply (tick_peck_wrap s (n - 1) 0 n Hn). lia. }
  assert (B : forall k, k < n -> ticks (n + k) s = set_animation (mkAnimationState Peck k 1) s).
  { intros k Hk. rewrite Nat.add_comm, ticks_add, W1.
    exact (ticks_mode_inner Peck s 0 1 n ltac:(discriminate) Hn k Hk). }
  split; [exact A|]. split; [exact B|].
  replace (2 * n) with (1 + (n + (n - 1))) by lia.
  rewrite ticks_add, B by lia. cbn [ticks].
  rewrite (tick_peck_last s (n - 1) n Hn ltac:(lia)), set_mode_logo_peck. reflexivity.
Qed.

Lemma peck_plays_two_loops_witness :
  let s := start_peck app_ready in
  animation s = mkAnimationState Peck 0 2 /\ mode_frame_count Peck s = 2 /\ 1 <= 2 /\
  ticks 4 s = maybe_start_success_animation
    (set_ready_for_success true (set_animation (mkAnimationState Logo 0 0) s)).
Proof.
  cbv zeta.
  assert (A : animation (start_peck app_ready) = mkAnimationState Peck 0 2)
    by (vm_compute; reflexivity).
  assert (N : mode_frame_count Peck (start_peck app_ready) = 2) by (vm_compute; reflexivity).
  split; [exact A|]. split; [exact N|]. split; [lia|].
  exact (proj2 (proj2 (peck_plays_two_loops _ 2 A N ltac:(lia)))).
Defined.

Lemma tick_success_last s fi m :
  mode_frame_count Success s = m -> S fi = m ->
  tick_animation true (set_animation (mkAnimationState Success fi 1) s) =
  set_unlock_in_progress false
    (set_animation (mkAnimationState
       (match file_entries s with [] => Logo | _ => HappyLoop end) 0 0) s).
Proof.
  intros Hn Hf.
  destruct s as [fr es a ip rd wd rt rx rv ok er vr wr hu pr].
  unfold tick_animation. cbn in Hn |- *. destruct rv;
    rewrite Hn, Hf, Nat.Div0.mod_same; (destruct (Nat.eqb_spec m 0); [lia|]);
    cbn; destruct es; reflexivity.
Qed.

(** X13: [start_success] plays the success frames exactly once; during the
    loop the unlock still counts as in progress, and at its end the unlock
    is over and the mascot goes back to HappyLoop if files are listed, to
    Logo otherwise. *)
Theorem success_plays_once s m :
  animation s = mkAnimationState Success 0 1 ->
  mode_frame_count Success s = m -> 1 <= m ->
  (forall k, k < m -> ticks k s = set_animation (mkAnimationState Success k 1) s) /\
  ticks m s =
  set_unlock_in_progress false
    (set_animation (mkAnimationState
       (match file_entries s with [] => Logo | _ => HappyLoop end) 0 0) s).
Proof.
  intros Ha Hn H1.
  assert (S0 : s = set_animation (mkAnimationState Success 0 1) s)
    by (rewrite <- Ha; symmetry; apply set_animation_same).
  assert (A : forall k, k < m -> ticks k s = set_animation (mkAnimationState Success k 1) s).
  { intros k Hk. rewrite S0 at 1.
    exact (ticks_mode_inner Success s 0 1 m ltac:(discriminate) Hn k Hk). }
  split; [exact A|].
  replace m with (1 + (m - 1)) at 1 by lia. rewrite ticks_add, A by lia. cbn [ticks].
  apply (tick_success_last s (m - 1) m Hn). lia.
Qed.

(** The failure animation after a session with one listed file. *)
Lemma success_plays_once_witness :
  let s := start_success true (set_file_entries [new_entry world_all_ok "/tmp/a.pdf"] app_ready) in
  animation s = mkAnimationState Success 0 1 /\ mode_frame_count Success s = 5 /\ 1 <= 5 /\
  mode (animation (ticks 5 s)) = HappyLoop /\ unlock_in_progress (ticks 5 s) = false.
Proof.
  cbv zeta.
  set (s := start_success true (set_file_entries [new_entry world_all_ok "/tmp/a.pdf"] app_ready)).
  assert (A : animation s = mkAnimationState Success 0 1) by (vm_compute; reflexivity).
  assert (N : mode_frame_count Success s = 5) by (vm_compute; reflexivity).
  pose proof (proj2 (success_plays_once s 5 A N ltac:(lia))) as T.
  split; [exact A|]. split; [exact N|]. split; [lia|].
  rewrite T. split; reflexivity.
Defined.

Lemma tick_happy s j ll n :
  mode_frame_count HappyLoop s = n -> 1 <= n ->
  tick_animation true (set_animation (mkAnimationState HappyLoop j ll) s) =
  set_animation (mkAnimationState HappyLoop (Nat.modulo (S j) n) ll) s.
Proof.
  intros Hn H1.
  destruct s as [fr es a ip rd wd rt rx rv ok er vr wr hu pr].
  unfold tick_animation. cbn in Hn |- *. rewrite Hn.
  destruct (Nat.eqb_spec n 0); [lia|]. reflexivity.
Qed.

(** X14: HappyLoop cycles through its frames for as long as nothing else
    happens: after [k] ticks it shows frame [(i + k) mod n], with nothing
    else of the state changed. *)
Theorem happy_loop_cycles s fi ll n :
  animation s = mkAnimationState HappyLoop fi ll ->
  mode_frame_count HappyLoop s = n -> fi < n ->
  forall k, ticks k s = set_animation (mkAnimationState HappyLoop (Nat.modulo (fi + k) n) ll) s.
Proof.
  intros Ha Hn Hf k. induction k as [|k IH]; cbn [ticks].
  - rewrite Nat.add_0_r, Nat.mod_small by exact Hf. rewrite <- Ha.
    symmetry. apply set_animation_same.
  - rewrite IH, (tick_happy s _ ll n Hn ltac:(lia)).
    assert (E : Nat.modulo (S (Nat.modulo (fi + k) n)) n = Nat.modulo (fi + S k) n).
    { rewrite <- Nat.add_1_r, Nat.Div0.add_mod_idemp_l. f_equal. lia. }
    rewrite E. reflexivity.
Qed.

Lemma happy_loop_cycles_witness :
  let s := start_happy_loop (set_file_entries [new_entry world_all_ok "/tmp/a.pdf"] app_ready) in
  animation s = mkAnimationState HappyLoop 0 0 /\ mode_frame_count HappyLoop s = 7 /\ 0 < 7 /\
  ticks 9 s = set_animation (mkAnimationState HappyLoop 2 0) s.
Proof.
  cbv zeta.
  set (s := start_happy_loop (set_file_entries [new_entry world_all_ok "/tmp/a.pdf"] app_ready)).
  assert (A : animation s = mkAnimationState HappyLoop 0 0) by (vm_compute; reflexivity).
  assert (N : mode_frame_count HappyLoop s = 7) by (vm_compute; reflexivity).
  split; [exact A|]. split; [exact N|]. split; [lia|].
  exact (happy_loop_cycles s 0 0 7 A N ltac:(lia) 9).
Defined.

(* ================================================================== *)
(** ** A drop during Peck and the end of the session                  *)

Lemma stuck_set_mode_happy s :
  mode (animation s) = HappyLoop -> set_mode HappyLoop s = s.
Proof. intros H. unfold set_mode. rewrite H. reflexivity. Qed.

Lemma stuck_tick due s : stuck_in_happy_loop s -> stuck_in_happy_loop (tick_animation due s).
Proof.
  intros (M & I & R).
  destruct s as [fr es [m fi ll] ip rd wd rt rx rv ok er vr wr hu pr].
  cbn in M, I, R. subst m ip rd.
  unfold tick_animation; cbn. destruct due; cbn; [|repeat split].
  destruct (Nat.eqb _ 0); repeat split.
Qed.

Lemma stuck_handle w n s :
  stuck_in_happy_loop s -> stuck_in_happy_loop (handle_unlock_messages w n s).
Proof.
  intros H. unfold handle_unlock_messages.
  destruct (unlock_rx s) as [q|]; [|exact H].
  assert (F : forall msgs sc, stuck_in_happy_loop (fst sc) ->
              stuck_in_happy_loop (fst (fold_left (handle_message w) msgs sc))).
  { induction msgs as [|m msgs IH]; intros [t c] Ht; cbn; [exact Ht|].
    apply IH. destruct Ht as (M & I & R). cbn [fst] in M, I, R.
    destruct m; cbn.
    - repeat split; assumption.
    - destruct (_ || _); repeat split; assumption.
    - unfold maybe_start_success_animation. cbn. rewrite R. cbn.
      repeat split; assumption. }
  assert (H0 : stuck_in_happy_loop (set_unlock_rx None s))
    by (destruct H as (M & I & R); repeat split; assumption).
  pose proof (F (firstn n q) (set_unlock_rx None s, false) H0) as Hf.
  destruct (fold_left _ _ _) as [t c]. cbn in Hf.
  destruct c; [exact Hf|]. destruct Hf as (M & I & R). repeat split; assumption.
Qed.

Lemma stuck_add_files w paths s :
  stuck_in_happy_loop s -> stuck_in_happy_loop (add_files w paths s).
Proof.
  intros (M & I & R). destruct (add_files_animation w paths s) as (A1 & A2 & _ & A4).
  unfold stuck_in_happy_loop. rewrite A1, A2, A4. auto.
Qed.

Lemma stuck_update w inp s :
  stuck_in_happy_loop s -> stuck_in_happy_loop (update w inp s).
Proof.
  intros H. unfold update.
  pose proof (stuck_handle w (received inp) _ (stuck_tick (tick_due inp) s H)) as H2.
  set (s2 := handle_unlock_messages _ _ _) in *.
  assert (H3 : stuck_in_happy_loop (drop_files w (dropped inp) s2)).
  { unfold drop_files. destruct (dropped inp); [exact H2|].
    pose proof (stuck_add_files w (flat_map (fun o => match o with Some p => [p] | None => [] end)
                  (o :: l)) s2 H2) as Ha.
    destruct (file_entries _); [exact Ha|].
    unfold start_happy_loop. rewrite stuck_set_mode_happy by apply Ha. exact Ha. }
  set (s3 := drop_files _ _ _) in *.
  assert (H4 : stuck_in_happy_loop (hover_mascot (hovered inp) s3)).
  { unfold hover_mascot. destruct H3 as (M & I & R). rewrite I. repeat split; assumption. }
  set (s4 := hover_mascot _ _) in *.
  assert (H5 : stuck_in_happy_loop (if clicked inp then click_mascot w (picked inp) s4 else s4)).
  { destruct (clicked inp); [|exact H4]. unfold click_mascot.
    destruct (file_entries s4).
    - destruct (picked inp) as [paths|]; [|exact H4].
      pose proof (stuck_add_files w paths s4 H4) as Ha.
      destruct (file_entries _); [exact Ha|].
      unfold start_happy_loop. rewrite stuck_set_mode_happy by apply Ha. exact Ha.
    - destruct (qpdf_ok s4).
      + unfold start_unlock. destruct H4 as (M & I & R). rewrite I. repeat split; assumption.
      + destruct (qpdf_error s4); [|exact H4].
        destruct H4 as (M & I & R). repeat split; assumption. }
  set (s5 := if clicked inp then _ else _) in *.
  unfold prompt_qpdf. destruct (_ && _); [|exact H5].
  destruct H5 as (M & I & R). repeat split; assumption.
Qed.

(** X15: once the mascot has left Peck while an unlock is running (a drop
    during Peck restarts HappyLoop), the end of Peck is never recorded, so
    whatever frames follow (the worker's [Done] included) the success
    animation never starts and the unlock stays in progress: further clicks
    cannot start a new unlock. *)
Theorem happy_loop_during_unlock_never_ends w inputs s :
  stuck_in_happy_loop s ->
  stuck_in_happy_loop (run_frames w inputs s) /\
  unlock_in_progress (run_frames w inputs s) = true.
Proof.
  revert s. induction inputs as [|inp inputs IH]; intros s H; cbn.
  - split; [exact H | apply H].
  - apply IH, stuck_update, H.
Qed.

(** Drop [a.pdf], click to unlock, drop [b.pdf] while Peck plays; then let
    the worker report everything. *)
Lemma happy_loop_during_unlock_never_ends_witness :
  let s := run_frames world_all_ok
             [frame false 0 [Some "/tmp/a.pdf"] false; frame false 0 [] true;
              frame false 0 [Some "/tmp/b.pdf"] false] app_ready in
  stuck_in_happy_loop s /\
  unlock_in_progress (run_frames world_all_ok
    [frame true 2 [] false; frame true 0 [] true; frame true 0 [] false] s) = true.
Proof.
  cbv zeta.
  assert (H : stuck_in_happy_loop (run_frames world_all_ok
             [frame false 0 [Some "/tmp/a.pdf"] false; frame false 0 [] true;
              frame false 0 [Some "/tmp/b.pdf"] false] app_ready))
    by (vm_compute; repeat split).
  split; [exact H|].
  exact (proj2 (happy_loop_during_unlock_never_ends world_all_ok
    [frame true 2 [] false; frame true 0 [] true; frame true 0 [] false] _ H)).
Defined.

Lemma add_paths_no_pdf w ps : forall es added,
  forallb (fun p => negb (is_pdf p)) ps = true -> add_paths w ps es added = (es, added).
Proof.
  induction ps as [|p ps IH]; intros es added H; cbn in *; [reflexivity|].
  apply andb_prop in H as [Hp Hps]. rewrite Hp. apply IH, Hps.
Qed.

Lemma add_paths_from w ps : forall es added,
  incl (map path (fst (add_paths w ps es added))) (app (map path es) ps).
Proof.
  induction ps as [|p ps IH]; intros es added; cbn.
  - rewrite app_nil_r. apply incl_refl.
  - destruct (is_pdf p); cbn;
      [destruct (existsb _ es); cbn|].
    + intros x Hx. apply IH in Hx. apply in_app_or in Hx as [Hx|Hx];
        apply in_or_app; [left; exact Hx | right; right; exact Hx].
    + intros x Hx. apply IH in Hx. rewrite map_app in Hx. cbn in Hx.
      rewrite new_entry_path in Hx.
      apply in_app_or in Hx as [Hx|Hx]; [apply in_app_or in Hx as [Hx|[<-|[]]]|];
        apply in_or_app; [left; exact Hx | right; left; reflexivity | right; right; exact Hx].
    + intros x Hx. apply IH in Hx. apply in_app_or in Hx as [Hx|Hx];
        apply in_or_app; [left; exact Hx | right; right; exact Hx].
Qed.

(** X16: the first drop or pick after a finished unlock starts a new list:
    the previous files, the result line and the finished flag are cleared
    even when nothing new is accepted, and the new list holds only paths
    from this drop. *)
Theorem add_files_after_session w paths s :
  had_unlock s = true ->
  let t := add_files w paths s in
  had_unlock t = false /\ result_text t = "" /\
  incl (map path (file_entries t)) paths /\
  (forallb (fun p => negb (is_pdf p)) paths = true -> file_entries t = []).
Proof.
  intros H. cbv zeta. unfold add_files. rewrite H. cbn.
  pose proof (add_paths_from w paths [] false) as I. cbn in I.
  destruct (forallb (fun p => negb (is_pdf p)) paths) eqn:N.
  - rewrite (add_paths_no_pdf w paths [] false N) in *. cbn in *.
    split; [reflexivity|]. split; [reflexivity|]. split; [intros x []|].
    intros _. reflexivity.
  - destruct (add_paths w paths [] false) as [es added]. cbn in I.
    destruct added; cbn; repeat split; try exact I; intros F; discriminate F.
Qed.

(** After a finished session, the user drops a text file. *)
Lemma add_files_after_session_witness :
  let s := set_had_unlock true
             (set_file_entries [new_entry world_all_ok "/tmp/a.pdf"] app_ready) in
  had_unlock s = true /\
  file_entries (add_files world_all_ok ["/tmp/notes.txt"] s) = [].
Proof.
  cbv zeta.
  assert (H : had_unlock (set_had_unlock true
             (set_file_entries [new_entry world_all_ok "/tmp/a.pdf"] app_ready)) = true)
    by reflexivity.
  split; [exact H|].
  exact (proj2 (proj2 (proj2 (add_files_after_session world_all_ok ["/tmp/notes.txt"] _ H)))
           ltac:(vm_compute; reflexivity)).
Defined.

Lemma fold_result_text w msgs : forall sc,
  existsb is_done msgs = false -> forallb info_informative msgs = true ->
  result_text (fst (fold_left (handle_message w) msgs sc)) =
  if is_empty (result_text (fst sc)) || String.eqb (result_text (fst sc)) "处理中..."
  then match first_info msgs with Some m => m | None => result_text (fst sc) end
  else result_text (fst sc).
Proof.
  induction msgs as [|m msgs IH]; intros [t c] D F; cbn in *.
  - destruct (_ || _); reflexivity.
  - destruct m as [index success op|info|]; cbn in D, F |- *; [| |discriminate D].
    + rewrite IH by assumption. reflexivity.
    + apply andb_prop in F as [Fi Fs].
      destruct (is_empty (result_text t) || String.eqb (result_text t) "处理中...") eqn:E;
        rewrite IH by assumption; cbn; [|rewrite E; reflexivity].
      apply negb_true_iff in Fi. rewrite Fi. reflexivity.
Qed.

(** X17: while an unlock runs the result line shows the first error the
    worker reports; later errors in the same run do not replace it. *)
Theorem handle_keeps_first_error w n s q :
  unlock_rx s = Some q -> result_text s = "处理中..." ->
  existsb is_done (firstn n q) = false ->
  forallb info_informative (firstn n q) = true ->
  result_text (handle_unlock_messages w n s) =
  match first_info (firstn n q) with Some m => m | None => "处理中..." end.
Proof.
  intros Q T D F. unfold handle_unlock_messages. rewrite Q.
  pose proof (fold_result_text w (firstn n q) (set_unlock_rx None s, false) D F) as R.
  destruct (fold_handle_fields w (firstn n q) (set_unlock_rx None s) false)
    as (C & _).
  destruct (fold_left _ _ _) as [t c]. cbn in R, C. rewrite D in C. subst c.
  cbn. rewrite R, T. reflexivity.
Qed.

(** Two files, qpdf fails to spawn for both; four of the five messages
    have arrived. *)
Lemma handle_keeps_first_error_witness :
  let s := run_frames world_spawn_fails
             [frame false 0 [Some "/tmp/a.pdf"; Some "/tmp/b.pdf"] false;
              frame false 0 [] true] app_ready in
  exists q, unlock_rx s = Some q /\ result_text s = "处理中..." /\
    existsb is_done (firstn 4 q) = false /\ forallb info_informative (firstn 4 q) = true /\
    result_text (handle_unlock_messages world_spawn_fails 4 s) =
    "解锁失败: qpdf 执行失败（请把 qpdf 放在程序同目录或加入 PATH）: No such file or directory".
Proof.
  cbv zeta.
  set (s := run_frames world_spawn_fails
             [frame false 0 [Some "/tmp/a.pdf"; Some "/tmp/b.pdf"] false;
              frame false 0 [] true] app_ready).
  exists (run_unlock world_spawn_fails (file_entries s)).
  assert (Q : unlock_rx s = Some (run_unlock world_spawn_fails (file_entries s)))
    by (vm_compute; reflexivity).
  assert (T : result_text s = "处理中...") by (vm_compute; reflexivity).
  assert (D : existsb is_done (firstn 4 (run_unlock world_spawn_fails (file_entries s))) = false)
    by (vm_compute; reflexivity).
  assert (F : forallb info_informative
                (firstn 4 (run_unlock world_spawn_fails (file_entries s))) = true)
    by (vm_compute; reflexivity).
  split; [exact Q|]. split; [exact T|]. split; [exact D|]. split; [exact F|].
  rewrite (handle_keeps_first_error world_spawn_fails 4 s _ Q T D F).
  vm_compute. reflexivity.
Defined.

(* ================================================================== *)
(** ** Start-up lookups, textures and the build scripts               *)

Lemma load_set_length loads dir key names : forall idx,
  length (load_set loads dir key idx names) = length names.
Proof. induction names as [|n names IH]; intros idx; cbn; [reflexivity | rewrite IH; reflexivity]. Qed.

(** X18: whichever images fail to load, every animation set gets exactly
    one texture per listed name (a placeholder for a missing one), so the
    frame counts are always 1, 7, 2, 5 and 5: the counts the session
    model uses. *)
Theorem load_frames_counts loads assets_dir :
  map (fun kv => (fst kv, length (snd kv))) (load_frame_textures loads assets_dir) =
  load_frames.
Proof.
  unfold load_frame_textures, frame_sets. cbn [map fst snd].
  rewrite !load_set_length. reflexivity.
Qed.

(** X19: the qpdf command is looked up in order: [qpdf] ([qpdf.exe] on
    Windows) in the directory of the program, if it exists there; else the
    same name in the working directory, if it exists there; else the bare
    name, left to the [PATH] lookup.  Each later choice is taken only when
    every earlier candidate is missing. *)
Theorem resolve_qpdf_command_found l :
  let f := qpdf_filename l in
  let r := resolve_qpdf_command l in
  (exists exe d, current_exe l = Some exe /\ parent exe = Some d /\
                 launch_exists l (join d f) = true /\ r = join d f) \/
  ((forall exe d, current_exe l = Some exe -> parent exe = Some d ->
                  launch_exists l (join d f) = false) /\
   ((exists cwd, current_dir l = Some cwd /\ launch_exists l (join cwd f) = true /\
                 r = join cwd f) \/
    ((forall cwd, current_dir l = Some cwd -> launch_exists l (join cwd f) = false) /\
     r = f))).
Proof.
  cbv zeta. unfold resolve_qpdf_command.
  assert (K : forall P : Prop,
            (forall exe d, current_exe l = Some exe -> parent exe = Some d ->
                           launch_exists l (join d (qpdf_filename l)) = false) ->
            P \/ ((forall exe d, current_exe l = Some exe -> parent exe = Some d ->
                           launch_exists l (join d (qpdf_filename l)) = false) /\
                  ((exists cwd, current_dir l = Some cwd /\
                     launch_exists l (join cwd (qpdf_filename l)) = true /\
                     match current_dir l with
                     | Some cwd => if launch_exists l (join cwd (qpdf_filename l))
                                   then join cwd (qpdf_filename l) else qpdf_filename l
                     | None => qpdf_filename l
                     end = join cwd (qpdf_filename l)) \/
                   ((forall cwd, current_dir l = Some cwd ->
                       launch_exists l (join cwd (qpdf_filename l)) = false) /\
                    match current_dir l with
                    | Some cwd => if launch_exists l (join cwd (qpdf_filename l))
                                  then join cwd (qpdf_filename l) else qpdf_filename l
                    | None => qpdf_filename l
                    end = qpdf_filename l)))).
  { intros P M. right. split; [exact M|].
    destruct (current_dir l) as [cwd|].
    - destruct (launch_exists l (join cwd (qpdf_filename l))) eqn:E.
      + left. exists cwd. auto.
      + right. split; [|reflexivity]. intros c Hc. injection Hc as <-. exact E.
    - right. split; [|reflexivity]. intros c Hc. discriminate Hc. }
  destruct (current_exe l) as [exe|] eqn:X.
  - destruct (parent exe) as [d|] eqn:D.
    + destruct (launch_exists l (join d (qpdf_filename l))) eqn:E.
      * left. exists exe, d. auto.
      * apply K. intros exe' d' Hx Hd. injection Hx as <-.
        rewrite D in Hd. injection Hd as <-. exact E.
    + apply K. intros exe' d' Hx Hd. injection Hx as <-.
      rewrite D in Hd. discriminate Hd.
  - apply K. intros exe' d' Hx. discriminate Hx.
Qed.

(** X20: the assets directory is one that exists (next to the working
    directory, the program, or in a macOS bundle's [Resources]), or the
    relative fallback [assets]. *)
Theorem resolve_assets_dir_found l :
  resolve_assets_dir l = "assets" \/ launch_exists l (resolve_assets_dir l) = true.
Proof.
  unfold resolve_assets_dir.
  destruct (current_dir l) as [cwd|];
    [destruct (launch_exists l (join cwd "assets")) eqn:E; [right; exact E|]|]; cbv beta iota zeta;
    (destruct (current_exe l) as [exe|]; [|left; reflexivity]);
    (destruct (parent exe) as [d|]; [|left; reflexivity]);
    (destruct (launch_exists l (join d "assets")) eqn:E1; [right; exact E1|]);
    (destruct (launch_exists l (join (join (join d "..") "Resources") "assets")) eqn:E2;
       [right; exact E2 | left; reflexivity]).
Qed.

(** X21: a Windows build that finds no qpdf ([QPDF_PATH] unset or empty,
    no [tools/qpdf.exe]) stops after its warning: it copies nothing, and
    the workspace script does not even embed the icon. *)
Theorem build_without_qpdf e :
  String.eqb (target_os e) "windows" = true ->
  (qpdf_path_var e = None \/ qpdf_path_var e = Some "") ->
  build_exists e (join (join (manifest_dir e) "tools") "qpdf.exe") = false ->
  crackleaf_build_main e = workspace_build_main e /\
  workspace_build_main e =
  [Stdout "cargo:rerun-if-env-changed=QPDF_PATH";
   Stdout "cargo:warning=Windows build: qpdf.exe not found in tools/"].
Proof.
  intros W V T.
  assert (N : build_qpdf_path e = None)
    by (unfold build_qpdf_path; destruct V as [V|V]; rewrite V, T; reflexivity).
  unfold crackleaf_build_main, workspace_build_main. rewrite W, N. split; reflexivity.
Qed.

(** The icon source exists, but qpdf does not. *)
Lemma build_without_qpdf_witness :
  let e := mkBuildEnv "windows" (Some "") "/w/crackleaf"
             "/w/target/release/build/crackleaf-1a2b/out"
             (fun p => String.eqb p "/w/crackleaf/assets/crackleaf.png")
             (fun _ _ => None) (fun _ => None) None None in
  String.eqb (target_os e) "windows" = true /\
  workspace_build_main e =
  [Stdout "cargo:rerun-if-env-changed=QPDF_PATH";
   Stdout "cargo:warning=Windows build: qpdf.exe not found in tools/"].
Proof.
  cbv zeta.
  set (e := mkBuildEnv "windows" (Some "") "/w/crackleaf"
             "/w/target/release/build/crackleaf-1a2b/out"
             (fun p => String.eqb p "/w/crackleaf/assets/crackleaf.png")
             (fun _ _ => None) (fun _ => None) None None).
  assert (W : String.eqb (target_os e) "windows" = true) by reflexivity.
  assert (V : qpdf_path_var e = None \/ qpdf_path_var e = Some "") by (right; reflexivity).
  assert (T : build_exists e (join (join (manifest_dir e) "tools") "qpdf.exe") = false)
    by (vm_compute; reflexivity).
  split; [exact W | exact (proj2 (build_without_qpdf e W V T))].
Defined.

Lemma dll_copies_in target entries src dst :
  In (CopyFile src dst) (dll_copies target entries) ->
  exists name ext, file_name src = Some name /\ dst = join target name /\
                   extension src = Some ext /\ eq_ignore_ascii_case ext "dll" = true.
Proof.
  unfold dll_copies. intros H. apply in_flat_map in H as (p & _ & H).
  destruct (extension p) as [ext|] eqn:X; [|destruct H].
  destruct (eq_ignore_ascii_case ext "dll") eqn:D; [|destruct H].
  destruct (file_name p) as [name|] eqn:F; [|destruct H].
  destruct H as [H|[]]. injection H as <- <-. exists name, ext. auto.
Qed.

(** X23: each build script copies qpdf itself to [qpdf.exe] in the target
    directory (the third ancestor of [OUT_DIR]) and otherwise only files
    with a [dll] extension in any letter case, each under its own name into
    that same directory. *)
Theorem build_copies_into_target e l src dst :
  (l = crackleaf_build_main e \/ l = workspace_build_main e) ->
  In (CopyFile src dst) l ->
  (build_qpdf_path e = Some src /\ dst = join (build_target_dir e) "qpdf.exe") \/
  (exists name ext, file_name src = Some name /\ dst = join (build_target_dir e) name /\
                    extension src = Some ext /\ eq_ignore_ascii_case ext "dll" = true).
Proof.
  intros L H.
  assert (C : forall q, build_qpdf_path e = Some q ->
              In (CopyFile src dst) (copy_qpdf_actions e q) ->
              (build_qpdf_path e = Some src /\ dst = join (build_target_dir e) "qpdf.exe") \/
              (exists name ext, file_name src = Some name /\
                 dst = join (build_target_dir e) name /\
                 extension src = Some ext /\ eq_ignore_ascii_case ext "dll" = true)).
  { intros q Q Hq. unfold copy_qpdf_actions in Hq. destruct Hq as [Hq|Hq].
    - injection Hq as <- <-. left. auto.
    - apply in_app_or in Hq as [Hq|Hq].
      + destruct (copy_error _ _ _); [destruct Hq as [Hq|[]]; discriminate Hq | destruct Hq].
      + right. destruct (parent q); [|destruct Hq].
        destruct (read_dir e _); [|destruct Hq].
        exact (dll_copies_in _ _ _ _ Hq). }
  assert (I : ~ In (CopyFile src dst) (icon_actions e)).
  { intros Hi. unfold icon_actions in Hi.
    destruct (build_exists _ _), (build_icon_error e), (icon_compile_error e);
      cbn in Hi; destruct Hi as [Hi|[]]; discriminate Hi. }
  destruct L as [->| ->]; [unfold crackleaf_build_main in H | unfold workspace_build_main in H];
    (destruct (String.eqb (target_os e) "windows"); cbn [negb] in H; [|destruct H]);
    (destruct H as [H|H]; [discriminate H|]);
    (destruct (build_qpdf_path e) as [q|] eqn:Q;
       [|destruct H as [H|[]]; discriminate H]).
  - exact (C q eq_refl H).
  - apply in_app_or in H as [H|H]; [exact (C q eq_refl H) | destruct (I H)].
Qed.

Lemma build_copies_into_target_witness :
  In (CopyFile "/opt/qpdf/bin/libqpdf30.DLL" "/w/target/release/libqpdf30.DLL")
     (workspace_build_main build_env_example) /\
  exists name ext, file_name "/opt/qpdf/bin/libqpdf30.DLL" = Some name /\
    "/w/target/release/libqpdf30.DLL" = join (build_target_dir build_env_example) name /\
    extension "/opt/qpdf/bin/libqpdf30.DLL" = Some ext /\ eq_ignore_ascii_case ext "dll" = true.
Proof.
  assert (H : In (CopyFile "/opt/qpdf/bin/libqpdf30.DLL" "/w/target/release/libqpdf30.DLL")
                 (workspace_build_main build_env_example))
    by (vm_compute; right; right; left; reflexivity).
  split; [exact H|].
  destruct (build_copies_into_target build_env_example _ _ _ (or_intror eq_refl) H)
    as [[Q _]|R]; [vm_compute in Q; discriminate Q | exact R].
Defined.

